(** * Inversor de Texto: a shallow embedding of [script.js]

    The program is one class, [TextInverter], whose methods are event
    handlers over the page.  Strings are modelled as the sequences of
    UTF-16 code units that JavaScript strings are, the page as a record
    of the element properties the handlers read and write, and the
    handlers as computations in a state-and-exception monad. *)

From stdpp Require Import base option list gmap strings.
From Stdlib Require Import ZArith Lia.

Local Open Scope Z_scope.

(** ** JavaScript strings *)

(** A string value is a finite sequence of 16-bit code units. *)
Abbreviation code_unit := Z (only parsing).
Abbreviation jsstring := (list Z) (only parsing).

Definition is_code_unit (c : code_unit) : Prop := 0 ≤ c < 65536.

Module Unicode.

(** Bytes of a source literal, as they stand in the UTF-8 source file. *)
Fixpoint bytes (s : string) : list Z :=
  match s with
  | EmptyString => []
  | String a s' => Z.of_N (Ascii.N_of_ascii a) :: bytes s'
  end.

Definition cont (b : Z) : Z := Z.land b 0x3F.

(** UTF-8 decoding of the source text into code points; an ill-formed
    sequence decodes to U+FFFD. *)
Fixpoint utf8_decode (bs : list Z) : list Z :=
  match bs with
  | [] => []
  | b0 :: r0 =>
    if b0 <? 0x80 then b0 :: utf8_decode r0
    else if b0 <? 0xC0 then 0xFFFD :: utf8_decode r0
    else
      match r0 with
      | [] => [0xFFFD]
      | b1 :: r1 =>
        if b0 <? 0xE0
        then Z.lor (Z.shiftl (Z.land b0 0x1F) 6) (cont b1) :: utf8_decode r1
        else
          match r1 with
          | [] => [0xFFFD]
          | b2 :: r2 =>
            if b0 <? 0xF0
            then Z.lor (Z.shiftl (Z.land b0 0x0F) 12)
                   (Z.lor (Z.shiftl (cont b1) 6) (cont b2)) :: utf8_decode r2
            else
              match r2 with
              | [] => [0xFFFD]
              | b3 :: r3 =>
                Z.lor (Z.shiftl (Z.land b0 0x07) 18)
                  (Z.lor (Z.shiftl (cont b1) 12)
                     (Z.lor (Z.shiftl (cont b2) 6) (cont b3))) :: utf8_decode r3
              end
          end
      end
  end.

(** CodePointToUTF16CodeUnits *)
Definition utf16_units (cp : Z) : list Z :=
  if cp <? 0x10000 then [cp]
  else [0xD800 + Z.shiftr (cp - 0x10000) 10; 0xDC00 + Z.land (cp - 0x10000) 0x3FF].

Definition is_leading_surrogate (c : Z) : bool := (0xD800 <=? c) && (c <=? 0xDBFF).
Definition is_trailing_surrogate (c : Z) : bool := (0xDC00 <=? c) && (c <=? 0xDFFF).

(** UTF16SurrogatePairToCodePoint *)
Definition surrogate_pair (lead trail : Z) : Z :=
  (lead - 0xD800) * 0x400 + (trail - 0xDC00) + 0x10000.

(** StringToCodePoints: the characters a string is read as; a surrogate
    that is not part of a pair stands for itself. *)
Fixpoint StringToCodePoints (s : jsstring) : list Z :=
  match s with
  | [] => []
  | c :: r =>
    match r with
    | d :: r' =>
      if is_leading_surrogate c && is_trailing_surrogate d
      then surrogate_pair c d :: StringToCodePoints r'
      else c :: StringToCodePoints r
    | [] => [c]
    end
  end.

(** IsStringWellFormedUnicode: no surrogate outside a pair. *)
Fixpoint IsStringWellFormedUnicode (s : jsstring) : bool :=
  match s with
  | [] => true
  | c :: r =>
    if is_leading_surrogate c then
      match r with
      | d :: r' => is_trailing_surrogate d && IsStringWellFormedUnicode r'
      | [] => false
      end
    else negb (is_trailing_surrogate c) && IsStringWellFormedUnicode r
  end.

End Unicode.

(** The string value of a literal of the source. *)
Definition lit (s : string) : jsstring :=
  Unicode.utf8_decode (Unicode.bytes s) ≫= Unicode.utf16_units.

(** ** Built-in methods used by the engine *)

Section Builtins.
Context {A : Type}.

(** [Array.prototype.reverse] on a dense array: the swap loop of the
    language definition, [n] being the iterations left ([middle - lower]). *)
Fixpoint reverse_loop (n lower : nat) (O : list A) : list A :=
  match n with
  | O%nat => O
  | S n' =>
    let upper := (length O - lower - 1)%nat in
    match O !! lower, O !! upper with
    | Some lowerValue, Some upperValue =>
      reverse_loop n' (S lower) (<[upper := lowerValue]> (<[lower := upperValue]> O))
    | _, _ => O
    end
  end.

Definition Array_reverse (O : list A) : list A :=
  reverse_loop (length O `div` 2)%nat 0 O.

End Builtins.

(** [String.prototype.split] with the empty separator: one string per code unit. *)
Definition String_split_empty (S : jsstring) : list jsstring :=
  (λ c, [c]) <$> S.

(** [Array.prototype.join] on an array of strings. *)
Fixpoint Array_join_from (k : nat) (sep : jsstring) (O : list jsstring) : jsstring :=
  match O with
  | [] => []
  | element :: O' =>
    (if decide (0 < k)%nat then sep else []) ++ element ++ Array_join_from (S k) sep O'
  end.

Definition Array_join (sep : jsstring) (O : list jsstring) : jsstring :=
  Array_join_from 0 sep O.

(** WhiteSpace and LineTerminator code units, the ones [trim] strips. *)
Definition is_white_space (c : code_unit) : bool :=
  bool_decide (c ∈ [0x09; 0x0B; 0x0C; 0x20; 0xA0; 0xFEFF; 0x1680; 0x202F; 0x205F; 0x3000])
  || ((0x2000 <=? c) && (c <=? 0x200A)).

Definition is_line_terminator (c : code_unit) : bool :=
  bool_decide (c ∈ [0x0A; 0x0D; 0x2028; 0x2029]).

Definition is_blank (c : code_unit) : bool :=
  is_white_space c || is_line_terminator c.

Fixpoint String_trimStart (S : jsstring) : jsstring :=
  match S with
  | [] => []
  | c :: S' => if is_blank c then String_trimStart S' else S
  end.

Fixpoint String_trimEnd (S : jsstring) : jsstring :=
  match S with
  | [] => []
  | c :: S' =>
    match String_trimEnd S' with
    | [] => if is_blank c then [] else [c]
    | T => c :: T
    end
  end.

(** [String.prototype.trim] *)
Definition String_trim (S : jsstring) : jsstring :=
  String_trimEnd (String_trimStart S).

(** ** The reversal engine *)

(** [reverseString(str)]: [str.split('').reverse().join('')] *)
Definition reverseString (str : jsstring) : jsstring :=
  Array_join [] (Array_reverse (String_split_empty str)).

(** ** The page and its host *)

(** The elements that can hold the focus. *)
Inductive Element := inputText | resultText | textArea.

(** A notification element created by [showMessage]. *)
Record MessageEl := {
  msg_id : nat;
  className : jsstring;
  textContent : jsstring;
  backgroundColor : jsstring;
  opacity : Z;                    (* '0' or '1'; the transform follows it *)
}.

(** The closures handed to [setTimeout] and [requestAnimationFrame]. *)
Inductive Task :=
| task_invert (text : jsstring)   (* invertText, the delayed reversal *)
| task_enter (id : nat)           (* showMessage, the entry animation *)
| task_leave (id : nat)           (* showMessage, after 3000 ms *)
| task_remove (id : nat).         (* showMessage, 300 ms after leaving *)

Record Form := {
  inputText_value : jsstring;
  resultText_value : jsstring;
  currentCount_textContent : nat;
}.

Record Buttons := {
  invertButton_disabled : bool;
  invertButton_loading : bool;    (* classList contains 'loading' *)
  invertButton_ariaLabel : jsstring;
  clearButton_disabled : bool;
  copyButton_disabled : bool;
}.

Record Theme := {
  data_theme : option jsstring;   (* attribute of the document element *)
  themeToggle_ariaLabel : jsstring;
  themeColor_content : option jsstring;  (* None: no meta[name=theme-color] *)
}.

(** Signals of the host that the program only reads. *)
Record Host := {
  matchMedia_dark : option bool;  (* None: no window.matchMedia; else .matches *)
  clipboard_api : bool;           (* navigator.clipboard && window.isSecureContext *)
  execCommand_throws : bool;      (* document.execCommand('copy') throws *)
  execCommand_returns : bool;     (* otherwise its result: true when it copied *)
}.

Record Notif := {
  messages : list MessageEl;      (* the .message elements of the body, in order *)
  next_id : nat;
  timers : list (Z * Task);       (* pending setTimeout calls: delay, callback *)
  frames : list Task;             (* pending requestAnimationFrame callbacks *)
}.

Record Runtime := {
  activeElement : option Element;
  promises : list jsstring;       (* pending clipboard.writeText(text) *)
  console : list (jsstring * jsstring);   (* console.error(label, error) *)
  log : list jsstring;            (* console.log(line) *)
  engine_calls : list jsstring;   (* ghost: the arguments reverseString was called with *)
}.

Record State := {
  form : Form;
  buttons : Buttons;
  theme : Theme;
  localStorage : gmap (list Z) (list Z);
  clipboard : jsstring;
  host : Host;
  notif : Notif;
  runtime : Runtime;
}.

Definition with_form (f : Form → Form) (σ : State) : State :=
  {| form := f (form σ); buttons := buttons σ; theme := theme σ;
     localStorage := localStorage σ; clipboard := clipboard σ; host := host σ;
     notif := notif σ; runtime := runtime σ |}.
Definition with_buttons (f : Buttons → Buttons) (σ : State) : State :=
  {| form := form σ; buttons := f (buttons σ); theme := theme σ;
     localStorage := localStorage σ; clipboard := clipboard σ; host := host σ;
     notif := notif σ; runtime := runtime σ |}.
Definition with_theme (f : Theme → Theme) (σ : State) : State :=
  {| form := form σ; buttons := buttons σ; theme := f (theme σ);
     localStorage := localStorage σ; clipboard := clipboard σ; host := host σ;
     notif := notif σ; runtime := runtime σ |}.
Definition with_localStorage (f : gmap (list Z) (list Z) → gmap (list Z) (list Z))
    (σ : State) : State :=
  {| form := form σ; buttons := buttons σ; theme := theme σ;
     localStorage := f (localStorage σ); clipboard := clipboard σ; host := host σ;
     notif := notif σ; runtime := runtime σ |}.
Definition with_clipboard (f : jsstring → jsstring) (σ : State) : State :=
  {| form := form σ; buttons := buttons σ; theme := theme σ;
     localStorage := localStorage σ; clipboard := f (clipboard σ); host := host σ;
     notif := notif σ; runtime := runtime σ |}.
Definition with_host (f : Host → Host) (σ : State) : State :=
  {| form := form σ; buttons := buttons σ; theme := theme σ;
     localStorage := localStorage σ; clipboard := clipboard σ; host := f (host σ);
     notif := notif σ; runtime := runtime σ |}.
Definition with_notif (f : Notif → Notif) (σ : State) : State :=
  {| form := form σ; buttons := buttons σ; theme := theme σ;
     localStorage := localStorage σ; clipboard := clipboard σ; host := host σ;
     notif := f (notif σ); runtime := runtime σ |}.
Definition with_runtime (f : Runtime → Runtime) (σ : State) : State :=
  {| form := form σ; buttons := buttons σ; theme := theme σ;
     localStorage := localStorage σ; clipboard := clipboard σ; host := host σ;
     notif := notif σ; runtime := f (runtime σ) |}.

(** ** Computations: state and exceptions *)

Inductive Completion (A : Type) : Type :=
| Normal (a : A)
| Throw (error : jsstring).
Arguments Normal {A} a.
Arguments Throw {A} error.

Definition M (A : Type) : Type := State → Completion A * State.

#[export] Instance M_ret : MRet M := λ A a σ, (Normal a, σ).
#[export] Instance M_bind : MBind M := λ A B k m σ,
  match m σ with
  | (Normal a, σ') => k a σ'
  | (Throw e, σ') => (Throw e, σ')
  end.

Definition gets {A} (f : State → A) : M A := λ σ, (Normal (f σ), σ).
Definition modify (f : State → State) : M unit := λ σ, (Normal (), f σ).
Definition throw {A} (error : jsstring) : M A := λ σ, (Throw error, σ).

(** [try { m } catch (error) { h error }] *)
Definition try_catch {A} (m : M A) (h : jsstring → M A) : M A := λ σ,
  match m σ with
  | (Normal a, σ') => (Normal a, σ')
  | (Throw e, σ') => h e σ'
  end.

(** [try { m } finally { f }] *)
Definition try_finally {A} (m : M A) (f : M unit) : M A := λ σ,
  match m σ with
  | (Normal a, σ') => match f σ' with
                      | (Normal _, σ'') => (Normal a, σ'')
                      | (Throw e', σ'') => (Throw e', σ'')
                      end
  | (Throw e, σ') => match f σ' with
                     | (Normal _, σ'') => (Throw e, σ'')
                     | (Throw e', σ'') => (Throw e', σ'')
                     end
  end.

(** The state a computation leaves. *)
Definition exec {A} (m : M A) (σ : State) : State := (m σ).2.

(** ** Host operations *)

Definition set_messages (f : list MessageEl → list MessageEl) : State → State :=
  with_notif (λ n, {| messages := f (messages n); next_id := next_id n;
                      timers := timers n; frames := frames n |}).
Definition set_next_id (f : nat → nat) : State → State :=
  with_notif (λ n, {| messages := messages n; next_id := f (next_id n);
                      timers := timers n; frames := frames n |}).
Definition set_timers (f : list (Z * Task) → list (Z * Task)) : State → State :=
  with_notif (λ n, {| messages := messages n; next_id := next_id n;
                      timers := f (timers n); frames := frames n |}).
Definition set_frames (f : list Task → list Task) : State → State :=
  with_notif (λ n, {| messages := messages n; next_id := next_id n;
                      timers := timers n; frames := f (frames n) |}).

Definition set_activeElement (el : option Element) : State → State :=
  with_runtime (λ r, {| activeElement := el; promises := promises r;
                        console := console r; log := log r;
                        engine_calls := engine_calls r |}).
Definition set_promises (f : list jsstring → list jsstring) : State → State :=
  with_runtime (λ r, {| activeElement := activeElement r; promises := f (promises r);
                        console := console r; log := log r;
                        engine_calls := engine_calls r |}).
Definition set_console (f : list (jsstring * jsstring) → list (jsstring * jsstring))
    : State → State :=
  with_runtime (λ r, {| activeElement := activeElement r; promises := promises r;
                        console := f (console r); log := log r;
                        engine_calls := engine_calls r |}).
Definition set_log (f : list jsstring → list jsstring) : State → State :=
  with_runtime (λ r, {| activeElement := activeElement r; promises := promises r;
                        console := console r; log := f (log r);
                        engine_calls := engine_calls r |}).
Definition set_engine_calls (f : list jsstring → list jsstring) : State → State :=
  with_runtime (λ r, {| activeElement := activeElement r; promises := promises r;
                        console := console r; log := log r;
                        engine_calls := f (engine_calls r) |}).

Definition set_inputText_value (v : jsstring) : State → State :=
  with_form (λ f, {| inputText_value := v; resultText_value := resultText_value f;
                     currentCount_textContent := currentCount_textContent f |}).
Definition set_resultText_value (v : jsstring) : State → State :=
  with_form (λ f, {| inputText_value := inputText_value f; resultText_value := v;
                     currentCount_textContent := currentCount_textContent f |}).
Definition set_currentCount (n : nat) : State → State :=
  with_form (λ f, {| inputText_value := inputText_value f;
                     resultText_value := resultText_value f;
                     currentCount_textContent := n |}).

Definition setTimeout (callback : Task) (delay : Z) : M unit :=
  modify (set_timers (λ ts, ts ++ [(delay, callback)])).

Definition requestAnimationFrame (callback : Task) : M unit :=
  modify (set_frames (λ fs, fs ++ [callback])).

Definition focus (el : Element) : M unit := modify (set_activeElement (Some el)).

Definition console_error (label error : jsstring) : M unit :=
  modify (set_console (λ c, c ++ [(label, error)])).

Definition console_log (line : jsstring) : M unit :=
  modify (set_log (λ l, l ++ [line])).

(** [localStorage.getItem(key)]: the stored string, or null. *)
Definition getItem (key : jsstring) : M (option jsstring) :=
  gets (λ σ, localStorage σ !! key).

(** [localStorage.setItem(key, value)] on a store that accepts the write;
    a refused write (no room, storage blocked), which throws, is outside
    the model. *)
Definition setItem (key value : jsstring) : M unit :=
  modify (with_localStorage (λ ls, <[key := value]> ls)).

(** [v || d] where [v] is a string or null: null and the empty string
    are the falsy ones. *)
Definition or_else (v : option jsstring) (d : jsstring) : jsstring :=
  match v with
  | Some (c :: s) => c :: s
  | _ => d
  end.

(** [!v] for a string or null. *)
Definition falsy (v : option jsstring) : bool :=
  match v with
  | Some (_ :: _) => false
  | _ => true
  end.

(** ** The methods of [TextInverter] *)

Definition theme_preference : jsstring := lit "theme-preference".
Definition light : jsstring := lit "light".
Definition dark : jsstring := lit "dark".

(** The [colors] table of [showMessage]. *)
Definition colors : list (jsstring * jsstring) :=
  [ (lit "success", lit "#059669"); (lit "warning", lit "#d97706");
    (lit "error", lit "#dc2626"); (lit "info", lit "#2563eb") ].

(** The own property [key] of an object literal. *)
Fixpoint property (o : list (jsstring * jsstring)) (key : jsstring) : option jsstring :=
  match o with
  | [] => None
  | (k, v) :: o' => if decide (k = key) then Some v else property o' key
  end.

(** The properties that an object literal inherits from [Object.prototype];
    their values are functions, or the prototype itself. *)
Definition Object_prototype : list jsstring :=
  lit <$> [ "constructor"; "hasOwnProperty"; "isPrototypeOf"; "propertyIsEnumerable";
            "toLocaleString"; "toString"; "valueOf"; "__proto__";
            "__defineGetter__"; "__defineSetter__"; "__lookupGetter__";
            "__lookupSetter__" ]%string.

(** What [o[key]] can be for an object literal of strings. *)
Inductive Value :=
| v_undefined
| v_string (s : jsstring)
| v_object.                       (* a function or an object *)

(** [o[key]]: an own property, else an inherited one, else undefined. *)
Definition get (o : list (jsstring * jsstring)) (key : jsstring) : Value :=
  match property o key with
  | Some v => v_string v
  | None => if bool_decide (key ∈ Object_prototype) then v_object else v_undefined
  end.

(** [v || d] for a value: undefined and the empty string are falsy. *)
Definition value_or (v : Value) (d : jsstring) : Value :=
  match v with
  | v_undefined | v_string [] => v_string d
  | _ => v
  end.

(** The assignment [messageEl.style.backgroundColor = v] on a new element:
    a value that is not a colour is ignored and the style stays empty.
    The strings of [colors] are colours. *)
Definition style_backgroundColor (v : Value) : jsstring :=
  match v with
  | v_string s => s
  | _ => []
  end.

Definition set_opacity (id : nat) (o : Z) (m : MessageEl) : MessageEl :=
  if decide (msg_id m = id)
  then {| msg_id := msg_id m; className := className m; textContent := textContent m;
          backgroundColor := backgroundColor m; opacity := o |}
  else m.

(** [showMessage(message, type)]; every call in the program passes [type]. *)
Definition showMessage (message type : jsstring) : M unit :=
  (* the first .message element, if any, is removed *)
  modify (set_messages (drop 1));;
  id ← gets (λ σ, next_id (notif σ));
  modify (set_next_id S);;
  let messageEl :=
    {| msg_id := id;
       className := lit "message message--" ++ type;
       textContent := message;
       backgroundColor :=
         style_backgroundColor (value_or (get colors type) (lit "#2563eb"));
       opacity := 0 |} in
  modify (set_messages (λ ms, ms ++ [messageEl]));;
  requestAnimationFrame (task_enter id);;
  setTimeout (task_leave id) 3000.

(** [updateThemeColor(theme)]: the meta element is created when missing. *)
Definition updateThemeColor (theme : jsstring) : M unit :=
  let color := if decide (theme = dark) then lit "#1e293b" else lit "#ffffff" in
  modify (with_theme (λ t, {| data_theme := data_theme t;
                              themeToggle_ariaLabel := themeToggle_ariaLabel t;
                              themeColor_content := Some color |})).

(** [applyTheme(theme)] *)
Definition applyTheme (theme : jsstring) : M unit :=
  let label := if decide (theme = dark) then lit "Cambiar a modo claro"
               else lit "Cambiar a modo oscuro" in
  modify (with_theme (λ t, {| data_theme := Some theme;
                              themeToggle_ariaLabel := label;
                              themeColor_content := themeColor_content t |}));;
  updateThemeColor theme.

(** [window.matchMedia && window.matchMedia('(prefers-color-scheme: dark)').matches] *)
Definition systemPrefersDark (σ : State) : bool :=
  match matchMedia_dark (host σ) with
  | Some matches => matches
  | None => false
  end.

(** [initializeTheme()] *)
Definition initializeTheme : M unit :=
  savedTheme ← getItem theme_preference;
  systemPrefersDark ← gets systemPrefersDark;
  let theme := or_else savedTheme (if (systemPrefersDark : bool) then dark else light) in
  applyTheme theme.

(** [toggleTheme()] *)
Definition toggleTheme : M unit :=
  currentTheme ← gets (λ σ, or_else (data_theme (theme σ)) light);
  let newTheme := if decide (currentTheme = light) then dark else light in
  applyTheme newTheme;;
  setItem theme_preference newTheme;;
  showMessage (lit "Modo " ++ (if decide (newTheme = dark) then lit "oscuro" else lit "claro")
                 ++ lit " activado") (lit "success").

(** The listener for changes of the system preference. *)
Definition systemPreferenceChanged : M unit :=
  savedTheme ← getItem theme_preference;
  if falsy savedTheme then
    systemPrefersDark ← gets systemPrefersDark;
    applyTheme (if (systemPrefersDark : bool) then dark else light)
  else mret ().

(** [setLoadingState(loading)] *)
Definition setLoadingState (loading : bool) : M unit :=
  modify (with_buttons (λ b,
    {| invertButton_disabled := loading;
       invertButton_loading := loading;
       invertButton_ariaLabel :=
         if loading then lit "Invirtiendo texto..." else lit "Invertir texto";
       clearButton_disabled := clearButton_disabled b;
       copyButton_disabled := copyButton_disabled b |})).

(** [updateButtonStates()] *)
Definition updateButtonStates : M unit :=
  hasInputText ← gets (λ σ, bool_decide
     (0 < length (String_trim (inputText_value (form σ))))%nat);
  hasResultText ← gets (λ σ, bool_decide (0 < length (resultText_value (form σ)))%nat);
  modify (with_buttons (λ b,
    {| invertButton_disabled := negb hasInputText;
       invertButton_loading := invertButton_loading b;
       invertButton_ariaLabel := invertButton_ariaLabel b;
       clearButton_disabled := negb hasInputText && negb hasResultText;
       copyButton_disabled := negb hasResultText |})).

(** [updateCharCount()]; the colour of the counter, which the source
    computes in floating point from the markup's maxlength, is not modelled. *)
Definition updateCharCount : M unit :=
  currentLength ← gets (λ σ, length (inputText_value (form σ)));
  modify (set_currentCount currentLength).

(** The call [this.reverseString(text)], recorded in [engine_calls]. *)
Definition call_reverseString (str : jsstring) : M jsstring :=
  modify (set_engine_calls (λ cs, cs ++ [str]));;
  mret (reverseString str).

(** The callback that [invertText] hands to [setTimeout]. *)
Definition invertText_callback (text : jsstring) : M unit :=
  invertedText ← call_reverseString text;
  modify (set_resultText_value invertedText);;
  setLoadingState false;;
  updateButtonStates;;
  showMessage (lit "¡Texto invertido correctamente!") (lit "success");;
  focus resultText.

(** [invertText()] *)
Definition invertText : M unit :=
  text ← gets (λ σ, String_trim (inputText_value (form σ)));
  if falsy (Some text) then
    showMessage (lit "Por favor, ingresa algún texto para invertir.") (lit "warning");;
    focus inputText
  else
    try_catch
      (setLoadingState true;;
       setTimeout (task_invert text) 100)
      (λ error,
         setLoadingState false;;
         console_error (lit "Error al invertir el texto:") error;;
         showMessage (lit "Ha ocurrido un error al invertir el texto.") (lit "error")).

(** [clearFields()] *)
Definition clearFields : M unit :=
  modify (set_inputText_value []);;
  modify (set_resultText_value []);;
  updateCharCount;;
  updateButtonStates;;
  focus inputText;;
  showMessage (lit "Campos limpiados correctamente.") (lit "success").

(** [document.execCommand('copy')] on the selected text: it throws, or
    copies and returns true, or returns false without copying. *)
Definition execCommand_copy (text : jsstring) : M bool :=
  throws ← gets (λ σ, execCommand_throws (host σ));
  if (throws : bool) then throw (lit "execCommand")
  else
    copied ← gets (λ σ, execCommand_returns (host σ));
    if (copied : bool) then modify (with_clipboard (λ _, text));; mret true
    else mret false.

(** [fallbackCopyToClipboard(text)] *)
Definition fallbackCopyToClipboard (text : jsstring) : M unit :=
  focus textArea;;
  (* the result of the command is not looked at *)
  try_finally (execCommand_copy text;; mret ())
    (* removing the focused textarea leaves nothing focused *)
    (modify (set_activeElement None)).

Definition copyResult_succeeded : M unit :=
  showMessage (lit "¡Texto copiado al portapapeles!") (lit "success").

Definition copyResult_failed (error : jsstring) : M unit :=
  console_error (lit "Error al copiar al portapapeles:") error;;
  showMessage (lit "Error al copiar el texto.") (lit "error").

(** [copyResult()], up to the [await]: with the clipboard API the rest of
    the body runs when the promise settles ([copyResult_settled]). *)
Definition copyResult : M unit :=
  text ← gets (λ σ, resultText_value (form σ));
  if falsy (Some text) then
    showMessage (lit "No hay texto que copiar.") (lit "warning")
  else
    api ← gets (λ σ, clipboard_api (host σ));
    if (api : bool) then modify (set_promises (λ ps, ps ++ [text]))
    else try_catch (fallbackCopyToClipboard text;; copyResult_succeeded)
                   copyResult_failed.

Definition copyResult_settled (text : jsstring) (fulfilled : bool) : M unit :=
  try_catch
    ((if fulfilled then modify (with_clipboard (λ _, text))
      else throw (lit "NotAllowedError"));;
     copyResult_succeeded)
    copyResult_failed.

(** [init()]; the listeners that [setupEventListeners] installs are the
    cases of [handle] below. *)
Definition init : M unit :=
  initializeTheme;;
  updateCharCount;;
  updateButtonStates.

(** ** Events *)

Inductive Event :=
| ev_click_invert
| ev_click_clear
| ev_click_copy
| ev_click_theme
| ev_input (value : jsstring)                      (* the user edits inputText *)
| ev_keydown (ctrlKey metaKey : bool) (key : jsstring)
| ev_result_input (value : jsstring)               (* the user edits resultText *)
| ev_media_change (matches : bool)                 (* prefers-color-scheme changes *)
| ev_timeout (n : nat)                             (* the n-th pending timer fires *)
| ev_animation_frame (n : nat)
| ev_promise_settled (fulfilled : bool).           (* the oldest writeText settles *)

Definition run_task (t : Task) : M unit :=
  match t with
  | task_invert text => invertText_callback text
  | task_enter id => modify (set_messages (fmap (set_opacity id 1)))
  | task_leave id =>
    modify (set_messages (fmap (set_opacity id 0)));;
    setTimeout (task_remove id) 300
  | task_remove id =>
    (* removed only if it still has a parent *)
    modify (set_messages (filter (λ m, msg_id m ≠ id)))
  end.

(** A click on a disabled button dispatches nothing. *)
Definition click (disabled : State → bool) (listener : M unit) : M unit :=
  d ← gets disabled;
  if (d : bool) then mret () else listener.

(** The listeners installed by [setupEventListeners]. *)
Definition handle (ev : Event) : M unit :=
  match ev with
  | ev_click_invert => click (λ σ, invertButton_disabled (buttons σ)) invertText
  | ev_click_clear => click (λ σ, clearButton_disabled (buttons σ)) clearFields
  | ev_click_copy => click (λ σ, copyButton_disabled (buttons σ)) copyResult
  | ev_click_theme => toggleTheme
  | ev_input value =>
    modify (set_inputText_value value);;
    updateCharCount;;
    updateButtonStates
  | ev_keydown ctrlKey metaKey key =>
    if (ctrlKey || metaKey) && bool_decide (key = lit "Enter")
    then invertText
    else mret ()
  | ev_result_input value =>
    modify (set_resultText_value value);;
    updateButtonStates
  | ev_media_change matches =>
    mm ← gets (λ σ, matchMedia_dark (host σ));
    match mm with
    | None => mret ()              (* no media query, no listener *)
    | Some _ =>
      modify (with_host (λ h, {| matchMedia_dark := Some matches;
                                 clipboard_api := clipboard_api h;
                                 execCommand_throws := execCommand_throws h;
                                 execCommand_returns := execCommand_returns h |}));;
      systemPreferenceChanged
    end
  | ev_timeout n =>
    ts ← gets (λ σ, timers (notif σ));
    match ts !! n with
    | Some (_, callback) => modify (set_timers (delete n));; run_task callback
    | None => mret ()
    end
  | ev_animation_frame n =>
    fs ← gets (λ σ, frames (notif σ));
    match fs !! n with
    | Some callback => modify (set_frames (delete n));; run_task callback
    | None => mret ()
    end
  | ev_promise_settled fulfilled =>
    ps ← gets (λ σ, promises (runtime σ));
    match ps with
    | text :: _ => modify (set_promises (drop 1));; copyResult_settled text fulfilled
    | [] => mret ()
    end
  end.

(** An exception that leaves a listener reaches the global error listener. *)
Definition dispatch (ev : Event) (σ : State) : State :=
  match handle ev σ with
  | (Normal _, σ') => σ'
  | (Throw e, σ') => exec (console_error (lit "Error global capturado:") e) σ'
  end.

(** The DOMContentLoaded listener: [new TextInverter()] on the page as
    parsed, then the line that reports it. *)
Definition load (page : State) : State :=
  exec (try_catch
          (init;;
           console_log (lit "✅ Inversor de Texto inicializado correctamente"))
          (console_error (lit "❌ Error al inicializar la aplicación:"))) page.

(** One step of the application: an event of the running page, or a new
    session on a page that shares nothing with the old one but the store. *)
Inductive step : State → State → Prop :=
| step_dispatch σ ev : step σ (dispatch ev σ)
| step_session σ page :
    localStorage page = localStorage σ → step σ (load page).




(** A page before the script has run, for a given store, applied theme
    and system preference: empty fields, nothing pending. *)
Definition example_page (ls : gmap (list Z) (list Z)) (applied : option jsstring)
    (mm : option bool) : State :=
  {| form := {| inputText_value := []; resultText_value := [];
                currentCount_textContent := 0 |};
     buttons := {| invertButton_disabled := false; invertButton_loading := false;
                   invertButton_ariaLabel := lit "Invertir texto";
                   clearButton_disabled := false; copyButton_disabled := false |};
     theme := {| data_theme := applied; themeToggle_ariaLabel := [];
                 themeColor_content := None |};
     localStorage := ls;
     clipboard := [];
     host := {| matchMedia_dark := mm; clipboard_api := true;
                execCommand_throws := false; execCommand_returns := true |};
     notif := {| messages := []; next_id := 0; timers := []; frames := [] |};
     runtime := {| activeElement := None; promises := []; console := [];
                   log := []; engine_calls := [] |} |}.

(** ** Observations *)

(** A computation keeps an observation [f] of the state. *)
Definition keeps {A B} (f : State → B) (m : M A) : Prop :=
  ∀ σ, f (exec m σ) = f σ.

(** A string made only of code units that [trim] strips. *)
Definition blank (s : jsstring) : Prop := Forall (λ c, is_blank c = true) s.

Arguments lit : simpl never.

(** ** Further observations *)

(** A string without surrogate code units: every unit is a character. *)
Definition no_surrogates (s : jsstring) : Prop :=
  Forall (λ c, Unicode.is_leading_surrogate c = false
               ∧ Unicode.is_trailing_surrogate c = false) s.

(** A string that [trim] leaves as it is and that is not empty. *)
Definition trimmed_text (s : jsstring) : Prop := s ≠ [] ∧ String_trim s = s.

(** A computation completes normally from every state. *)
Definition completes {A} (m : M A) : Prop :=
  ∀ σ, ∃ a, (m σ).1 = Normal a.

(** The events of a list, dispatched in order. *)
Definition run_events (evs : list Event) (σ : State) : State :=
  foldl (λ s ev, dispatch ev s) σ evs.

(** The toggle's label and the theme colour are the ones of the applied theme. *)
Definition theme_consistent (σ : State) : Prop :=
  ∃ t, data_theme (theme σ) = Some t
       ∧ themeToggle_ariaLabel (theme σ) =
           (if decide (t = dark) then lit "Cambiar a modo claro"
            else lit "Cambiar a modo oscuro")
       ∧ themeColor_content (theme σ) =
           Some (if decide (t = dark) then lit "#1e293b" else lit "#ffffff").

(** The counter shows the length of the input. *)
Definition counter_ok (σ : State) : Prop :=
  currentCount_textContent (form σ) = length (inputText_value (form σ)).

(** Each button is enabled exactly when it has something to act on; the
    invert button may differ while it is loading. *)
Definition buttons_ok (σ : State) : Prop :=
  copyButton_disabled (buttons σ) = bool_decide (resultText_value (form σ) = [])
  ∧ clearButton_disabled (buttons σ) =
      bool_decide (String_trim (inputText_value (form σ)) = []
                   ∧ resultText_value (form σ) = [])
  ∧ (invertButton_loading (buttons σ) = false →
     invertButton_disabled (buttons σ) =
       bool_decide (String_trim (inputText_value (form σ)) = [])).

(** At most one notification is in the page, and its identity is older
    than the next one to be created. *)
Definition notif_ok (σ : State) : Prop :=
  (length (messages (notif σ)) ≤ 1)%nat
  ∧ ∀ m, m ∈ messages (notif σ) → (msg_id m < next_id (notif σ))%nat.

(** The text of a reversal task. *)
Definition task_text (t : Task) : option jsstring :=
  match t with
  | task_invert text => Some text
  | _ => None
  end.

(** Every reversal that is pending or was made is on a trimmed, non-empty text. *)
Definition engine_ok (σ : State) : Prop :=
  (∀ d t text, (d, t) ∈ timers (notif σ) → task_text t = Some text → trimmed_text text)
  ∧ (∀ t text, t ∈ frames (notif σ) → task_text t = Some text → trimmed_text text)
  ∧ Forall trimmed_text (engine_calls (runtime σ)).

(** A computation takes every state to one related to it by [R]. *)
Definition respects {A} (R : State → State → Prop) (m : M A) : Prop :=
  ∀ σ, R σ (exec m σ).

(** Two states with the same observation [f]. *)
Definition same {B} (f : State → B) (σ σ' : State) : Prop := f σ' = f σ.

(** An invariant carried from one state to the next. *)
Definition preserved (I : State → Prop) (σ σ' : State) : Prop := I σ → I σ'.

(** ** The engine computes the reversal *)

Section ReverseLoop.
Context {A : Type}.
Implicit Types (O : list A) (n lower i : nat).

Lemma reverse_loop_length n lower O :
  length (reverse_loop n lower O) = length O.
Proof.
  revert lower O. induction n as [|n IH]; intros lower O; simpl; [done|].
  destruct (O !! lower) as [lo|]; [|done].
  destruct (O !! _) as [up|]; [|done].
  by rewrite IH, !length_insert.
Qed.

(** After [n] iterations from [lower], the [n] slots on either side
    hold their mirror images and the rest is untouched. *)
Lemma reverse_loop_lookup n lower O i :
  (2 * (lower + n) ≤ length O)%nat →
  reverse_loop n lower O !! i =
    if bool_decide ((lower ≤ i < lower + n)%nat
                    ∨ (length O - lower - n ≤ i < length O - lower)%nat)
    then O !! (length O - 1 - i)%nat
    else O !! i.
Proof.
  revert lower O. induction n as [|n IH]; intros lower O Hn; simpl.
  { rewrite bool_decide_eq_false_2; [done|lia]. }
  destruct (lookup_lt_is_Some_2 O lower) as [lo Hlo]; [lia|].
  destruct (lookup_lt_is_Some_2 O (length O - lower - 1)) as [up Hup]; [lia|].
  rewrite Hlo, Hup, IH by (rewrite !length_insert; lia).
  rewrite !length_insert.
  destruct (decide (i = lower)) as [->|Hil].
  { rewrite bool_decide_eq_false_2 by lia.
    rewrite bool_decide_eq_true_2 by lia.
    rewrite list_lookup_insert_ne by lia.
    rewrite list_lookup_insert_eq by lia.
    rewrite <- Hup. f_equal. lia. }
  destruct (decide (i = length O - lower - 1)%nat) as [->|Hiu].
  { rewrite bool_decide_eq_false_2 by lia.
    rewrite bool_decide_eq_true_2 by lia.
    rewrite list_lookup_insert_eq by (rewrite length_insert; lia).
    rewrite <- Hlo. f_equal. lia. }
  case_bool_decide as H1; case_bool_decide as H2; try lia.
  - rewrite !list_lookup_insert_ne by lia. done.
  - rewrite !list_lookup_insert_ne by lia. done.
Qed.

Lemma Array_reverse_reverse O : Array_reverse O = reverse O.
Proof.
  unfold Array_reverse. apply list_eq; intros i.
  pose proof (Nat.div_mod_eq (length O) 2) as Hd.
  pose proof (Nat.mod_upper_bound (length O) 2) as Hm.
  rewrite reverse_loop_lookup by lia.
  destruct (decide (i < length O)%nat) as [Hi|Hi].
  - rewrite reverse_lookup by done.
    case_bool_decide as H1.
    + f_equal; lia.
    + f_equal; lia.
  - rewrite (lookup_ge_None_2 (reverse O)) by (rewrite length_reverse; lia).
    case_bool_decide; apply lookup_ge_None_2; lia.
Qed.

End ReverseLoop.

Lemma Array_join_from_empty k O : Array_join_from k [] O = mjoin O.
Proof.
  revert k. induction O as [|e O IH]; intros k; simpl; [done|].
  rewrite IH. by destruct (decide _).
Qed.

Lemma reverseString_reverse str : reverseString str = reverse str.
Proof.
  unfold reverseString, Array_join, String_split_empty.
  rewrite Array_join_from_empty, Array_reverse_reverse, <- fmap_reverse.
  induction (reverse str) as [|c s IH]; [done|]. csimpl. by rewrite IH.
Qed.

Lemma reverseString_length str : length (reverseString str) = length str.
Proof. by rewrite reverseString_reverse, length_reverse. Qed.

Lemma reverseString_rev str : reverseString str = rev str.
Proof. rewrite reverseString_reverse. unfold reverse. symmetry. apply rev_alt. Qed.

(** C1. For every string [s] and every valid index [i], the result [r] of
    [reverseString] has [r[i] == s[len(s)-1-i]], read over code units. *)
Theorem reverseString_index (s : jsstring) (i : nat) :
  (i < length s)%nat →
  ∃ c, reverseString s !! i = Some c ∧ s !! (length s - 1 - i)%nat = Some c.
Proof.
  intros Hi.
  destruct (lookup_lt_is_Some_2 s (length s - 1 - i)) as [c Hc]; [lia|].
  exists c. split; [|done].
  rewrite reverseString_reverse, reverse_lookup by done.
  rewrite <- Hc. f_equal. lia.
Qed.

Lemma reverseString_index_witness :
  ∃ c, reverseString (lit "hello") !! 1%nat = Some c
       ∧ lit "hello" !! (length (lit "hello") - 1 - 1)%nat = Some c.
Proof. apply (reverseString_index (lit "hello") 1). vm_compute. lia. Defined.

(** C2. [reverseString] is an involution: reversing twice gives the
    string back. *)
Theorem reverseString_involutive (s : jsstring) :
  reverseString (reverseString s) = s.
Proof. rewrite !reverseString_reverse. apply reverse_involutive. Qed.

(** C3. For every string, the empty one included, [reverseString] keeps
    the length in code units, and its result is a permutation of the
    code units of the input, namely their exact reversal. *)
Theorem reverseString_length_permutation (s : jsstring) :
  length (reverseString s) = length s
  ∧ reverseString s ≡ₚ s
  ∧ reverseString s = rev s.
Proof.
  split; [apply reverseString_length|]. split; [|apply reverseString_rev].
  rewrite reverseString_reverse. apply reverse_Permutation.
Qed.

(** C4. [reverseString] works on raw UTF-16 code units: its result is
    always the exact reversal of the code-unit sequence, and so there is
    an input made of one surrogate pair (U+1F600) whose reversal splits
    the pair: the result is two lone surrogates, not the character. *)
Theorem reverseString_code_units :
  (∀ s : jsstring, reverseString s = rev s)
  ∧ ∃ s : jsstring,
      Forall is_code_unit s
      ∧ Unicode.IsStringWellFormedUnicode s = true
      ∧ Unicode.StringToCodePoints s = [0x1F600]
      ∧ reverseString s = [0xDE00; 0xD83D]
      ∧ Unicode.IsStringWellFormedUnicode (reverseString s) = false
      ∧ Unicode.StringToCodePoints (reverseString s) = [0xDE00; 0xD83D]
      ∧ Unicode.StringToCodePoints (reverseString s)
          ≠ rev (Unicode.StringToCodePoints s).
Proof.
  split.
  - apply reverseString_rev.
  - exists [0xD83D; 0xDE00]. split.
    { repeat constructor; unfold is_code_unit; lia. }
    repeat split; try (vm_compute; reflexivity).
    vm_compute. discriminate.
Qed.

(** C8. The test vectors: the empty string, a single element and a
    palindrome are fixed points, and "hello" becomes "olleh". *)
Theorem reverseString_vectors :
  reverseString (lit "") = lit ""
  ∧ reverseString (lit "a") = lit "a"
  ∧ reverseString (lit "hello") = lit "olleh"
  ∧ reverseString (lit "12321") = lit "12321".
Proof. repeat split; vm_compute; reflexivity. Qed.

(** ** Trimming *)

Lemma String_trimStart_blank pre s :
  blank pre → String_trimStart (pre ++ s) = String_trimStart s.
Proof. induction 1 as [|c pre Hc _ IH]; simpl; [done|]. by rewrite Hc. Qed.

Lemma String_trimEnd_blank post : blank post → String_trimEnd post = [].
Proof. induction 1 as [|c post Hc _ IH]; simpl; [done|]. by rewrite IH, Hc. Qed.

Lemma String_trimEnd_app_blank s post :
  blank post → String_trimEnd (s ++ post) = String_trimEnd s.
Proof.
  intros Hp. induction s as [|c s IH]; simpl.
  - by apply String_trimEnd_blank.
  - by rewrite IH.
Qed.

Lemma String_trimEnd_last s c :
  last s = Some c → is_blank c = false → String_trimEnd s = s.
Proof.
  intros Hl Hc. induction s as [|a s IH]; simpl; [done|].
  destruct s as [|b s]; simpl in *.
  - injection Hl as ->. by rewrite Hc.
  - rewrite IH by done. done.
Qed.

Lemma String_trim_blank s : blank s → String_trim s = [].
Proof.
  intros Hs. unfold String_trim.
  rewrite <- (app_nil_r s), String_trimStart_blank by done. done.
Qed.

Lemma String_trim_core pre core post a b :
  blank pre → blank post →
  head core = Some a → is_blank a = false →
  last core = Some b → is_blank b = false →
  String_trim (pre ++ core ++ post) = core.
Proof.
  intros Hpre Hpost Ha Hna Hb Hnb. unfold String_trim.
  rewrite String_trimStart_blank by done.
  destruct core as [|c core]; [done|]. simpl in Ha. injection Ha as ->.
  simpl String_trimStart. rewrite Hna.
  change (a :: core ++ post) with ((a :: core) ++ post).
  rewrite String_trimEnd_app_blank by done.
  by apply (String_trimEnd_last _ b).
Qed.

(** ** Reasoning about computations *)

Section Keeps.
Context {B : Type} (f : State → B).

Lemma keeps_ret {A} (a : A) : keeps f (mret a).
Proof. by intros σ. Qed.

Lemma keeps_gets {A} (g : State → A) : keeps f (gets g).
Proof. by intros σ. Qed.

Lemma keeps_throw {A} e : keeps f (throw e : M A).
Proof. by intros σ. Qed.

Lemma keeps_modify g : (∀ σ, f (g σ) = f σ) → keeps f (modify g).
Proof. intros H σ. apply H. Qed.

Lemma keeps_bind {A C} (m : M A) (k : A → M C) :
  keeps f m → (∀ a, keeps f (k a)) → keeps f (m ≫= k).
Proof.
  intros Hm Hk σ. specialize (Hm σ). unfold exec, mbind, M_bind in *.
  destruct (m σ) as [[a|e] σ']; simpl in *; [|done].
  rewrite <- Hm. apply Hk.
Qed.

Lemma keeps_try_catch {A} (m : M A) h :
  keeps f m → (∀ e, keeps f (h e)) → keeps f (try_catch m h).
Proof.
  intros Hm Hh σ. specialize (Hm σ). unfold exec, try_catch in *.
  destruct (m σ) as [[a|e] σ']; simpl in *; [done|].
  rewrite <- Hm. apply Hh.
Qed.

Lemma keeps_try_finally {A} (m : M A) fin :
  keeps f m → keeps f fin → keeps f (try_finally m fin).
Proof.
  intros Hm Hf σ. specialize (Hm σ). unfold exec, try_finally in *.
  destruct (m σ) as [[a|e] σ']; simpl in *;
    specialize (Hf σ'); unfold exec in Hf;
    destruct (fin σ') as [[[]|e'] σ'']; simpl in *; congruence.
Qed.

End Keeps.

Ltac unfold_methods :=
  unfold handle, click, run_task, init, copyResult_settled, copyResult,
    copyResult_failed, copyResult_succeeded, fallbackCopyToClipboard,
    execCommand_copy, clearFields, invertText, invertText_callback,
    call_reverseString, updateCharCount, updateButtonStates, setLoadingState,
    systemPreferenceChanged, toggleTheme, initializeTheme, applyTheme,
    updateThemeColor, showMessage, setItem, getItem, console_error, focus,
    requestAnimationFrame, setTimeout;
  cbv zeta.

Ltac keeps_step :=
  lazymatch goal with
  | |- keeps _ (mret _) => apply keeps_ret
  | |- keeps _ (gets _) => apply keeps_gets
  | |- keeps _ (throw _) => apply keeps_throw
  | |- keeps _ (modify _) => apply keeps_modify; intros ?; reflexivity
  | |- keeps _ (_ ≫= _) => apply keeps_bind; [|intros ?]
  | |- keeps _ (try_catch _ _) => apply keeps_try_catch; [|intros ?]
  | |- keeps _ (try_finally _ _) => apply keeps_try_finally
  | |- keeps _ (if ?b then _ else _) => destruct b
  | |- keeps _ (match ?x with _ => _ end) => destruct x
  end.

Ltac keeps_auto := unfold_methods; repeat keeps_step.

(** *** Notifications *)

Lemma showMessage_messages message type σ :
  messages (notif (exec (showMessage message type) σ)) =
    drop 1 (messages (notif σ)) ++
      [ {| msg_id := next_id (notif σ);
           className := lit "message message--" ++ type;
           textContent := message;
           backgroundColor :=
             style_backgroundColor (value_or (get colors type) (lit "#2563eb"));
           opacity := 0 |} ].
Proof. reflexivity. Qed.

(** *** [invertText] *)

Lemma invertText_blank_eq σ :
  String_trim (inputText_value (form σ)) = [] →
  invertText σ =
    (showMessage (lit "Por favor, ingresa algún texto para invertir.") (lit "warning");;
     focus inputText) σ.
Proof. intros H. unfold invertText, mbind, M_bind, gets. by rewrite H. Qed.

Lemma invertText_proceeds_eq σ :
  String_trim (inputText_value (form σ)) ≠ [] →
  invertText σ =
    (setLoadingState true;;
     setTimeout (task_invert (String_trim (inputText_value (form σ)))) 100) σ.
Proof.
  intros H. unfold invertText, mbind, M_bind, gets.
  destruct (String_trim _) as [|c text]; done.
Qed.

(** C5. When the input text is empty or only whitespace, [invertText]
    shows the warning notification and returns: the engine is not
    called, no reversal is scheduled (the only new timer is the one that
    dismisses the notification) and the result field keeps its value. *)
Theorem invertText_blank_input (σ : State) :
  blank (inputText_value (form σ)) →
  (invertText σ).1 = Normal ()
  ∧ last (messages (notif (exec invertText σ))) =
      Some {| msg_id := next_id (notif σ);
              className := lit "message message--warning";
              textContent := lit "Por favor, ingresa algún texto para invertir.";
              backgroundColor := lit "#d97706";
              opacity := 0 |}
  ∧ engine_calls (runtime (exec invertText σ)) = engine_calls (runtime σ)
  ∧ timers (notif (exec invertText σ)) =
      timers (notif σ) ++ [(3000, task_leave (next_id (notif σ)))]
  ∧ resultText_value (form (exec invertText σ)) = resultText_value (form σ).
Proof.
  intros Hb. apply String_trim_blank in Hb.
  unfold exec. rewrite (invertText_blank_eq σ Hb).
  split; [reflexivity|]. split; [|repeat split].
  etransitivity; [apply (f_equal last), showMessage_messages|].
  rewrite last_snoc. reflexivity.
Qed.

Lemma invertText_blank_input_witness :
  engine_calls (runtime (exec invertText
     (set_inputText_value (lit "  ") (example_page ∅ None None)))) = [].
Proof.
  apply (invertText_blank_input
           (set_inputText_value (lit "  ") (example_page ∅ None None))).
  repeat constructor.
Defined.

(** C9. When [invertText] proceeds, what it schedules, and what the
    scheduled callback writes to the result field whenever it runs, is
    [reverseString] of the trimmed input; so whitespace around a core of
    text that starts and ends with other characters is not in the output. *)
Theorem invertText_writes_reversed_trim (σ : State) :
  String_trim (inputText_value (form σ)) ≠ [] →
  let text := String_trim (inputText_value (form σ)) in
  let σ1 := exec invertText σ in
  timers (notif σ1) = timers (notif σ) ++ [(100, task_invert text)]
  ∧ resultText_value (form σ1) = resultText_value (form σ)
  ∧ (∀ σ2,
       resultText_value (form (exec (run_task (task_invert text)) σ2))
         = reverseString text
       ∧ engine_calls (runtime (exec (run_task (task_invert text)) σ2))
         = engine_calls (runtime σ2) ++ [text])
  ∧ resultText_value (form (dispatch (ev_timeout (length (timers (notif σ)))) σ1))
      = reverseString text
  ∧ (∀ pre core post a b,
       inputText_value (form σ) = pre ++ core ++ post →
       blank pre → blank post →
       head core = Some a → is_blank a = false →
       last core = Some b → is_blank b = false →
       text = core
       ∧ resultText_value
           (form (dispatch (ev_timeout (length (timers (notif σ)))) σ1))
         = reverseString core).
Proof.
  intros Hne text σ1.
  assert (Hσ1 : σ1 = exec (setLoadingState true;; setTimeout (task_invert text) 100) σ).
  { unfold σ1, exec. by rewrite invertText_proceeds_eq. }
  assert (Hfire : resultText_value
            (form (dispatch (ev_timeout (length (timers (notif σ)))) σ1))
          = reverseString text).
  { rewrite Hσ1. unfold dispatch, handle.
    unfold mbind at 1. unfold M_bind at 1. unfold gets at 1.
    change (timers (notif (exec _ σ))) with (timers (notif σ) ++ [(100, task_invert text)]).
    rewrite list_lookup_middle by done. reflexivity. }
  split; [by rewrite Hσ1|]. split; [by rewrite Hσ1|].
  split; [intros σ2; split; reflexivity|]. split; [done|].
  intros pre core post a b Hin Hpre Hpost Ha Hna Hb Hnb.
  assert (text = core) as Hcore.
  { unfold text. rewrite Hin. by apply (String_trim_core _ _ _ a b). }
  split; [done|]. by rewrite <- Hcore.
Qed.

Lemma invertText_writes_reversed_trim_witness :
  String_trim (lit " hola  ") = lit "hola"
  ∧ resultText_value (form (dispatch (ev_timeout 0)
      (exec invertText (set_inputText_value (lit " hola  ") (example_page ∅ None None)))))
    = reverseString (lit "hola").
Proof.
  assert (String_trim (inputText_value (form
            (set_inputText_value (lit " hola  ") (example_page ∅ None None)))) ≠ [])
    as Hne by (vm_compute; discriminate).
  pose proof (invertText_writes_reversed_trim _ Hne) as W. cbv zeta in W.
  destruct W as (_ & _ & _ & _ & W).
  apply (W (lit " ") (lit "hola") (lit "  ") 104 97);
    first [reflexivity | repeat constructor].
Defined.

(** C6. [reverseString] returns a string for every string and never
    fails: the call completes normally with the reversal, the callback
    that makes it completes normally, and the block that [invertText]
    guards never throws, so that its catch branch (which would write to
    the console and show the error notification) is never run. *)
Theorem invertText_never_fails :
  (∀ str, Forall is_code_unit str →
     Forall is_code_unit (reverseString str)
     ∧ ∀ σ, (call_reverseString str σ).1 = Normal (reverseString str))
  ∧ (∀ text σ,
       (invertText_callback text σ).1 = Normal ()
       ∧ console (runtime (exec (invertText_callback text) σ)) = console (runtime σ))
  ∧ (∀ text σ,
       ((setLoadingState true;; setTimeout (task_invert text) 100) σ).1 = Normal ())
  ∧ (∀ σ,
       (invertText σ).1 = Normal ()
       ∧ console (runtime (exec invertText σ)) = console (runtime σ)
       ∧ ∀ m, m ∈ messages (notif (exec invertText σ)) →
              className m = lit "message message--error" →
              m ∈ messages (notif σ)).
Proof.
  split; [|split; [|split]].
  - intros str Hstr. split; [|done].
    by rewrite reverseString_reverse, reverse_Permutation.
  - intros text σ. split; reflexivity.
  - reflexivity.
  - intros σ. destruct (decide (String_trim (inputText_value (form σ)) = [])) as [Hb|Hp].
    + unfold exec. rewrite (invertText_blank_eq σ Hb).
      split; [reflexivity|]. split; [reflexivity|].
      intros m Hm Hc.
      change (m ∈ drop 1 (messages (notif σ)) ++
                [ {| msg_id := next_id (notif σ);
                     className := lit "message message--warning";
                     textContent := lit "Por favor, ingresa algún texto para invertir.";
                     backgroundColor := lit "#d97706";
                     opacity := 0 |} ]) in Hm.
      apply elem_of_app in Hm as [Hm|Hm].
      * by apply (subseteq_drop 1).
      * apply list_elem_of_singleton in Hm. subst m. vm_compute in Hc. discriminate.
    + unfold exec. rewrite (invertText_proceeds_eq σ Hp).
      split; [reflexivity|]. split; [reflexivity|]. intros m Hm _. exact Hm.
Qed.

Lemma invertText_never_fails_witness :
  Forall is_code_unit (reverseString (lit "ab"))
  ∧ ∀ σ, (call_reverseString (lit "ab") σ).1 = Normal (reverseString (lit "ab")).
Proof.
  apply (proj1 invertText_never_fails (lit "ab")).
  repeat constructor; unfold is_code_unit; vm_compute; intuition discriminate.
Defined.

(** *** Themes *)






Lemma init_keeps_localStorage : keeps localStorage init.
Proof. keeps_auto. Qed.

Lemma load_localStorage page : localStorage (load page) = localStorage page.
Proof.
  unfold load. apply (keeps_try_catch localStorage).
  - apply init_keeps_localStorage.
  - intros e. keeps_auto.
Qed.




(** *** The invariant of the theme *)








Lemma handle_media_change matches σ :
  handle (ev_media_change matches) σ =
    match matchMedia_dark (host σ) with
    | None => (Normal (), σ)
    | Some _ =>
      systemPreferenceChanged
        (with_host (λ h, {| matchMedia_dark := Some matches;
                            clipboard_api := clipboard_api h;
                            execCommand_throws := execCommand_throws h;
                            execCommand_returns := execCommand_returns h |}) σ)
    end.
Proof.
  unfold handle, mbind at 1, M_bind at 1, gets at 1.
  by destruct (matchMedia_dark (host σ)).
Qed.









(** ** More on the engine *)

(** X1. The reversal of a concatenation is the concatenation, in the other
    order, of the reversals. *)
Theorem reverseString_app (a b : jsstring) :
  reverseString (a ++ b) = reverseString b ++ reverseString a.
Proof. rewrite !reverseString_reverse. apply reverse_app. Qed.

Lemma StringToCodePoints_no_surrogates s :
  no_surrogates s → Unicode.StringToCodePoints s = s.
Proof.
  induction 1 as [|c s [Hl Ht] Hs IH]; [done|].
  destruct s as [|d s']; [done|].
  change (Unicode.StringToCodePoints (c :: d :: s')) with
    (if Unicode.is_leading_surrogate c && Unicode.is_trailing_surrogate d
     then Unicode.surrogate_pair c d :: Unicode.StringToCodePoints s'
     else c :: Unicode.StringToCodePoints (d :: s')).
  by rewrite Hl, IH.
Qed.

Lemma IsStringWellFormedUnicode_no_surrogates s :
  no_surrogates s → Unicode.IsStringWellFormedUnicode s = true.
Proof.
  induction 1 as [|c s [Hl Ht] Hs IH]; [done|].
  simpl. by rewrite Hl, Ht, IH.
Qed.

(** X2. On a string without surrogates the reversal is the reversal of its
    characters, and is again such a string. *)
Theorem reverseString_no_surrogates (s : jsstring) :
  no_surrogates s →
  no_surrogates (reverseString s)
  ∧ Unicode.IsStringWellFormedUnicode (reverseString s) = true
  ∧ Unicode.StringToCodePoints (reverseString s) = rev (Unicode.StringToCodePoints s).
Proof.
  intros Hs.
  assert (no_surrogates (reverseString s)) as Hr.
  { unfold no_surrogates. by rewrite reverseString_reverse, reverse_Permutation. }
  split; [done|]. split; [by apply IsStringWellFormedUnicode_no_surrogates|].
  rewrite !StringToCodePoints_no_surrogates by done. apply reverseString_rev.
Qed.

Lemma reverseString_no_surrogates_witness :
  Unicode.StringToCodePoints (reverseString (lit "año"))
    = rev (Unicode.StringToCodePoints (lit "año")).
Proof.
  apply (reverseString_no_surrogates (lit "año")).
  repeat constructor.
Defined.

(** ** More on trimming *)

Lemma String_trimStart_suffix s :
  ∃ pre, s = pre ++ String_trimStart s ∧ blank pre.
Proof.
  induction s as [|c s (pre & Hs & Hpre)]; simpl.
  - exists []. by split; [|constructor].
  - destruct (is_blank c) eqn:Hc.
    + exists (c :: pre). split; [simpl; by f_equal|by constructor].
    + exists []. by split; [|constructor].
Qed.

Lemma String_trimStart_head s c r :
  String_trimStart s = c :: r → is_blank c = false.
Proof.
  induction s as [|a s IH]; simpl; [done|].
  destruct (is_blank a) eqn:Ha; [done|]. by intros [= <- _].
Qed.

Lemma String_trimEnd_prefix s :
  ∃ post, s = String_trimEnd s ++ post ∧ blank post.
Proof.
  induction s as [|c s (post & Hs & Hpost)]; simpl.
  - exists []. by split; [|constructor].
  - destruct (String_trimEnd s) as [|d t] eqn:Ht.
    + simpl in Hs. subst post. destruct (is_blank c) eqn:Hc.
      * exists (c :: s). split; [done|by constructor].
      * exists s. by split.
    + exists post. split; [|done]. simpl. f_equal. exact Hs.
Qed.

Lemma String_trimEnd_nonblank_last s :
  String_trimEnd s ≠ [] → ∃ c, last (String_trimEnd s) = Some c ∧ is_blank c = false.
Proof.
  induction s as [|a s IH]; simpl; [done|].
  destruct (String_trimEnd s) as [|d t] eqn:Ht.
  - destruct (is_blank a) eqn:Ha; [done|]. intros _. by exists a.
  - intros _. destruct IH as (c & Hc & Hb); [done|]. exists c. split; [|done].
    simpl in *. exact Hc.
Qed.

Lemma String_trimEnd_head s c r :
  String_trimEnd s = c :: r → head s = Some c.
Proof.
  destruct s as [|a s]; simpl; [done|].
  destruct (String_trimEnd s); [destruct (is_blank a)|]; by intros [= <- _].
Qed.

Lemma String_trim_ends s :
  String_trim s ≠ [] →
  ∃ a b, head (String_trim s) = Some a ∧ is_blank a = false
         ∧ last (String_trim s) = Some b ∧ is_blank b = false.
Proof.
  intros Hne. unfold String_trim in *.
  destruct (String_trimEnd_nonblank_last _ Hne) as (b & Hb & Hnb).
  destruct (String_trimEnd (String_trimStart s)) as [|a t] eqn:Ht; [done|].
  pose proof (String_trimEnd_head _ _ _ Ht) as Hh.
  destruct (String_trimStart s) as [|a' r] eqn:Hs; [done|].
  simpl in Hh. injection Hh as ->.
  exists a, b. repeat split; try done. by apply (String_trimStart_head s a r).
Qed.

Lemma String_trim_fixed s a b :
  head s = Some a → is_blank a = false → last s = Some b → is_blank b = false →
  String_trim s = s.
Proof.
  intros Ha Hna Hb Hnb. rewrite <- (app_nil_r s) at 1.
  apply (String_trim_core [] s [] a b); try done; constructor.
Qed.

Lemma String_trim_idem s : String_trim (String_trim s) = String_trim s.
Proof.
  destruct (decide (String_trim s = [])) as [->|Hne]; [done|].
  destruct (String_trim_ends s Hne) as (a & b & Ha & Hna & Hb & Hnb).
  by apply (String_trim_fixed _ a b).
Qed.

(** X3. [trim] removes a blank prefix and a blank suffix, nothing else; what
    is left is empty or starts and ends with code units that are not
    blank, and trimming it again changes nothing. *)
Theorem String_trim_spec (s : jsstring) :
  (∃ pre post, s = pre ++ String_trim s ++ post ∧ blank pre ∧ blank post)
  ∧ (String_trim s ≠ [] →
     ∃ a b, head (String_trim s) = Some a ∧ is_blank a = false
            ∧ last (String_trim s) = Some b ∧ is_blank b = false)
  ∧ String_trim (String_trim s) = String_trim s.
Proof.
  split; [|split; [apply String_trim_ends|apply String_trim_idem]].
  destruct (String_trimStart_suffix s) as (pre & Hs & Hpre).
  destruct (String_trimEnd_prefix (String_trimStart s)) as (post & Ht & Hpost).
  exists pre, post. unfold String_trim. by rewrite <- Ht.
Qed.

Lemma String_trim_spec_witness :
  ∃ a b, head (String_trim (lit " hola  ")) = Some a ∧ is_blank a = false
         ∧ last (String_trim (lit " hola  ")) = Some b ∧ is_blank b = false.
Proof.
  apply (String_trim_spec (lit " hola  ")). vm_compute. discriminate.
Defined.

(** ** Reasoning with relations *)

Section Respects.
Context (R : State → State → Prop) `{!Reflexive R} `{!Transitive R}.

Lemma respects_ret {A} (a : A) : respects R (mret a).
Proof. intros σ. apply reflexivity. Qed.

Lemma respects_gets {A} (g : State → A) : respects R (gets g).
Proof. intros σ. apply reflexivity. Qed.

Lemma respects_throw {A} e : respects R (throw e : M A).
Proof. intros σ. apply reflexivity. Qed.

Lemma respects_modify g : (∀ σ, R σ (g σ)) → respects R (modify g).
Proof. intros H σ. apply H. Qed.

Lemma respects_bind {A C} (m : M A) (k : A → M C) :
  respects R m → (∀ a, respects R (k a)) → respects R (m ≫= k).
Proof.
  intros Hm Hk σ. specialize (Hm σ). unfold exec, mbind, M_bind in *.
  destruct (m σ) as [[a|e] σ']; simpl in *; [|done].
  etransitivity; [exact Hm|apply Hk].
Qed.

Lemma respects_try_catch {A} (m : M A) h :
  respects R m → (∀ e, respects R (h e)) → respects R (try_catch m h).
Proof.
  intros Hm Hh σ. specialize (Hm σ). unfold exec, try_catch in *.
  destruct (m σ) as [[a|e] σ']; simpl in *; [done|].
  etransitivity; [exact Hm|apply Hh].
Qed.

Lemma respects_try_finally {A} (m : M A) fin :
  respects R m → respects R fin → respects R (try_finally m fin).
Proof.
  intros Hm Hf σ. specialize (Hm σ). unfold exec, try_finally in *.
  destruct (m σ) as [[a|e] σ']; simpl in *;
    specialize (Hf σ'); unfold exec in Hf;
    destruct (fin σ') as [[[]|e'] σ'']; simpl in *; by etransitivity.
Qed.

Lemma respects_try_catch_normal {A} (m : M A) h :
  completes m → respects R m → respects R (try_catch m h).
Proof.
  intros Hc Hm σ. specialize (Hm σ). destruct (Hc σ) as [a Ha].
  unfold exec, try_catch in *. by destruct (m σ) as [[a'|e] σ'].
Qed.

End Respects.

(** ** Completion *)

Lemma completes_ret {A} (a : A) : completes (mret a).
Proof. intros σ. by exists a. Qed.

Lemma completes_gets {A} (g : State → A) : completes (gets g).
Proof. intros σ. by eexists. Qed.

Lemma completes_modify g : completes (modify g).
Proof. intros σ. by eexists. Qed.

Lemma completes_bind {A C} (m : M A) (k : A → M C) :
  completes m → (∀ a, completes (k a)) → completes (m ≫= k).
Proof.
  intros Hm Hk σ. destruct (Hm σ) as [a Ha]. unfold mbind, M_bind.
  destruct (m σ) as [[a'|e] σ']; simpl in *; [|done]. apply Hk.
Qed.

Lemma completes_try_catch {A} (m : M A) h :
  (∀ e, completes (h e)) → completes (try_catch m h).
Proof.
  intros Hh σ. unfold try_catch.
  destruct (m σ) as [[a|e] σ']; simpl; [by exists a|apply Hh].
Qed.

Ltac completes_step :=
  lazymatch goal with
  | |- completes (mret _) => apply completes_ret
  | |- completes (gets _) => apply completes_gets
  | |- completes (modify _) => apply completes_modify
  | |- completes (_ ≫= _) => apply completes_bind; [|intros ?]
  | |- completes (try_catch _ _) => apply completes_try_catch; intros ?
  | |- completes (if ?b then _ else _) => destruct b
  | |- completes (match ?x with _ => _ end) => destruct x
  end.

Ltac completes_auto := unfold_methods; repeat completes_step.

Lemma handle_completes ev : completes (handle ev).
Proof. destruct ev; completes_auto. Qed.

Lemma init_completes : completes init.
Proof. completes_auto. Qed.

Lemma dispatch_exec ev σ : dispatch ev σ = exec (handle ev) σ.
Proof.
  unfold dispatch, exec. destruct (handle_completes ev σ) as [[] H].
  destruct (handle ev σ) as [[[]|e] σ']; simpl in *; done.
Qed.

Lemma load_exec page :
  load page =
    set_log (λ l, l ++ [lit "✅ Inversor de Texto inicializado correctamente"])
      (exec init page).
Proof.
  unfold load, exec, try_catch, mbind, M_bind.
  destruct (init_completes page) as [[] H].
  destruct (init page) as [[[]|e] σ']; simpl in *; done.
Qed.

#[local] Instance same_refl {B} (f : State → B) : Reflexive (same f).
Proof. by intros σ. Qed.

#[local] Instance same_trans {B} (f : State → B) : Transitive (same f).
Proof. intros σ1 σ2 σ3 H1 H2. unfold same in *. congruence. Qed.

(** A guarded block that completes normally makes its handler dead code. *)
Ltac respects_step leaf :=
  lazymatch goal with
  | |- respects _ (mret _) => apply respects_ret; apply _
  | |- respects _ (gets _) => apply respects_gets; apply _
  | |- respects _ (throw _) => apply respects_throw; apply _
  | |- respects _ (modify _) => apply respects_modify; intros ?; leaf
  | |- respects _ (_ ≫= _) => apply respects_bind; [apply _| |intros ?]
  | |- respects _ (try_catch _ _) =>
      first [ apply respects_try_catch_normal; [solve [completes_auto]|]
            | apply respects_try_catch; [apply _| |intros ?] ]
  | |- respects _ (try_finally _ _) => apply respects_try_finally; [apply _| |]
  | |- respects _ (if ?b then _ else _) => destruct b
  | |- respects _ (match ?x with _ => _ end) => destruct x
  end.

Ltac respects_auto leaf := unfold_methods; repeat (respects_step leaf).

Ltac same_leaf := reflexivity.

(** ** Symbolic execution *)

Ltac exec_cbv :=
  cbv beta iota zeta delta
    [ dispatch load exec handle click run_task init copyResult_settled copyResult
      copyResult_failed copyResult_succeeded fallbackCopyToClipboard
      execCommand_copy clearFields invertText invertText_callback
      call_reverseString updateCharCount updateButtonStates setLoadingState
      systemPreferenceChanged toggleTheme initializeTheme applyTheme
      updateThemeColor showMessage setItem getItem console_error console_log focus
      requestAnimationFrame setTimeout systemPrefersDark falsy or_else
      try_catch try_finally mbind M_bind mret M_ret gets modify throw
      with_form with_buttons with_theme with_localStorage with_clipboard
      with_host with_notif with_runtime
      set_messages set_next_id set_timers set_frames set_activeElement
      set_promises set_console set_log set_engine_calls set_inputText_value
      set_resultText_value set_currentCount
      form buttons theme localStorage clipboard host notif runtime
      inputText_value resultText_value currentCount_textContent
      invertButton_disabled invertButton_loading invertButton_ariaLabel
      clearButton_disabled copyButton_disabled
      data_theme themeToggle_ariaLabel themeColor_content
      matchMedia_dark clipboard_api execCommand_throws execCommand_returns
      messages next_id timers frames
      activeElement promises console log engine_calls
      fst snd andb orb negb ].

Ltac exec_case :=
  match goal with
  | |- context [match ?x with _ => _ end] =>
      lazymatch x with
      | context [match _ with _ => _ end] => fail
      | _ => destruct x eqn:?
      end
  end.

Ltac exec_all := exec_cbv; repeat (exec_case; exec_cbv).

Lemma dispatch_counter_ok ev σ : counter_ok σ → counter_ok (dispatch ev σ).
Proof.
  unfold counter_ok. destruct σ as [[] [] [] ? ? [] [] []].
  destruct ev; exec_all; try done.
Qed.

(** ** Invariants of the running page *)

Lemma rtc_step_invariant (I : State → Prop) :
  (∀ ev σ, I σ → I (dispatch ev σ)) → (∀ page, I (load page)) →
  ∀ page σ, rtc step (load page) σ → I σ.
Proof.
  intros Hev Hload page σ Hsteps.
  assert (∀ σ0, rtc step σ0 σ → I σ0 → I σ) as Hrtc.
  { clear page Hsteps. induction 1 as [|σ0 σ1 σ2 Hstep _ IH]; [done|].
    intros H0. apply IH. destruct Hstep; [by apply Hev|apply Hload]. }
  apply (Hrtc _ Hsteps), Hload.
Qed.

Lemma run_events_invariant (I : State → Prop) :
  (∀ ev σ, I σ → I (dispatch ev σ)) →
  ∀ evs σ, I σ → I (run_events evs σ).
Proof.
  intros Hev evs. unfold run_events.
  induction evs as [|ev evs IH]; intros σ Hσ; simpl; [done|]. by apply IH, Hev.
Qed.

Lemma load_counter_ok page : counter_ok (load page).
Proof. unfold counter_ok. destruct page as [[] [] [] ? ? [] [] []]. by exec_all. Qed.

(** X5. The character counter shows the length of the input, in code units,
    after the page has loaded and after every event of every session. *)
Theorem counter_always (page σ : State) :
  rtc step (load page) σ → counter_ok σ.
Proof.
  revert page σ. apply rtc_step_invariant.
  - apply dispatch_counter_ok.
  - apply load_counter_ok.
Qed.

Lemma counter_always_witness :
  counter_ok (dispatch (ev_input (lit "hola")) (load (example_page ∅ None None))).
Proof.
  apply (counter_always (example_page ∅ None None)). apply rtc_once, step_dispatch.
Defined.

Lemma bool_decide_nil_length (s : jsstring) :
  negb (bool_decide (0 < length s)%nat) = bool_decide (s = []).
Proof.
  destruct s as [|c s]; [done|].
  rewrite (bool_decide_eq_true_2 (0 < _)%nat) by (simpl; lia).
  by rewrite bool_decide_eq_false_2.
Qed.

Lemma updateButtonStates_buttons_ok σ : buttons_ok (exec updateButtonStates σ).
Proof.
  unfold buttons_ok. destruct σ as [[input result ?] [] [] ? ? [] [] []]. exec_cbv.
  destruct (String_trim input) as [|c text], result as [|d result];
    repeat case_bool_decide; simpl in *; try lia; intuition congruence.
Qed.

#[local] Instance preserved_refl I : Reflexive (preserved I).
Proof. by intros σ H. Qed.

#[local] Instance preserved_trans I : Transitive (preserved I).
Proof. intros σ1 σ2 σ3 H1 H2 H. by apply H2, H1. Qed.

Lemma respects_same_preserved {A B} (f : State → B) (I : State → Prop) (m : M A) :
  (∀ σ σ', f σ' = f σ → I σ → I σ') →
  respects (same f) m → respects (preserved I) m.
Proof. intros Hf Hm σ. unfold preserved. apply Hf, Hm. Qed.

Lemma respects_always {A} (I : State → Prop) (m : M A) :
  (∀ σ, I (exec m σ)) → respects (preserved I) m.
Proof. intros H σ. unfold preserved. intros _. apply H. Qed.

(** The methods behind the head of a computation, one layer at a time. *)
Ltac unfold_head :=
  lazymatch goal with
  | |- respects _ (?f _ _ _) => unfold f
  | |- respects _ (?f _ _) => unfold f
  | |- respects _ (?f _) => unfold f
  | |- respects _ ?f => unfold f
  end; cbv zeta.

Ltac no_leaf := idtac; fail.

Ltac respects_by known leaf :=
  repeat first [ known | respects_step leaf | unfold_head ].

(** *** Buttons *)

Lemma buttons_ok_ext σ σ' :
  form σ' = form σ → buttons σ' = buttons σ → buttons_ok σ → buttons_ok σ'.
Proof. unfold buttons_ok. by intros -> ->. Qed.

Lemma buttons_ok_same {A} (m : M A) :
  respects (same (λ σ, (form σ, buttons σ))) m → respects (preserved buttons_ok) m.
Proof.
  apply respects_same_preserved. intros σ σ' [= Hf Hb]. by apply buttons_ok_ext.
Qed.

Lemma invertText_buttons_ok : respects (preserved buttons_ok) invertText.
Proof.
  intros σ. unfold preserved, exec.
  destruct (decide (String_trim (inputText_value (form σ)) = [])) as [Hb|Hp].
  - rewrite (invertText_blank_eq σ Hb). by apply buttons_ok_ext.
  - rewrite (invertText_proceeds_eq σ Hp). unfold buttons_ok.
    intros (Hc & Hl & _). by repeat split.
Qed.

Lemma invertText_callback_buttons_ok text :
  respects (preserved buttons_ok) (invertText_callback text).
Proof.
  apply respects_always. intros σ.
  apply (buttons_ok_ext
    (exec updateButtonStates
       (exec (call_reverseString text ≫= λ invertedText,
              modify (set_resultText_value invertedText);;
              setLoadingState false) σ))); [done..|].
  apply updateButtonStates_buttons_ok.
Qed.

Lemma clearFields_buttons_ok : respects (preserved buttons_ok) clearFields.
Proof.
  apply respects_always. intros σ.
  apply (buttons_ok_ext
    (exec updateButtonStates
       (exec (modify (set_inputText_value []);;
              modify (set_resultText_value []);;
              updateCharCount) σ))); [done..|].
  apply updateButtonStates_buttons_ok.
Qed.

Ltac buttons_known :=
  idtac; lazymatch goal with
  | |- respects _ invertText => apply invertText_buttons_ok
  | |- respects _ (invertText_callback _) => apply invertText_callback_buttons_ok
  | |- respects _ clearFields => apply clearFields_buttons_ok
  | |- _ => apply buttons_ok_same; respects_auto same_leaf; fail
  end.

Lemma handle_buttons_ok ev : respects (preserved buttons_ok) (handle ev).
Proof.
  destruct ev as [| | | |v|c m k|v|b|n|n|b]; unfold handle, click, run_task;
    try (respects_by buttons_known no_leaf; fail).
  - apply respects_always. intros σ.
    apply (buttons_ok_ext
      (exec updateButtonStates
         (exec (modify (set_inputText_value v);; updateCharCount) σ))); [done..|].
    apply updateButtonStates_buttons_ok.
  - apply respects_always. intros σ.
    apply (buttons_ok_ext
      (exec updateButtonStates (exec (modify (set_resultText_value v)) σ))); [done..|].
    apply updateButtonStates_buttons_ok.
Qed.

Lemma load_buttons_ok page : buttons_ok (load page).
Proof.
  rewrite load_exec.
  apply (buttons_ok_ext
    (exec updateButtonStates (exec (initializeTheme;; updateCharCount) page))); [done..|].
  apply updateButtonStates_buttons_ok.
Qed.

(** X6. After the page has loaded and after every event, the copy button is
    disabled exactly when the result is empty, the clear button exactly
    when there is neither text to invert nor a result, and the invert
    button, unless it is loading, exactly when the input is blank. *)
Theorem buttons_always (page σ : State) :
  rtc step (load page) σ → buttons_ok σ.
Proof.
  revert page σ. apply rtc_step_invariant.
  - intros ev σ. rewrite dispatch_exec. apply handle_buttons_ok.
  - apply load_buttons_ok.
Qed.

Lemma buttons_always_witness :
  buttons_ok (dispatch (ev_input (lit "hola")) (load (example_page ∅ None None))).
Proof.
  apply (buttons_always (example_page ∅ None None)). apply rtc_once, step_dispatch.
Defined.

(** *** The toggle and the theme colour *)

Lemma theme_consistent_ext σ σ' :
  theme σ' = theme σ → theme_consistent σ → theme_consistent σ'.
Proof. unfold theme_consistent. by intros ->. Qed.

Lemma applyTheme_theme_consistent t σ : theme_consistent (exec (applyTheme t) σ).
Proof. by exists t. Qed.

Ltac theme_known :=
  idtac; lazymatch goal with
  | |- respects _ (applyTheme _) =>
      apply respects_always; intros ?; apply applyTheme_theme_consistent
  | |- _ =>
      apply (respects_same_preserved theme); [apply theme_consistent_ext|];
      respects_auto same_leaf; fail
  end.

Lemma handle_theme_consistent ev : respects (preserved theme_consistent) (handle ev).
Proof. destruct ev; unfold handle, click, run_task; respects_by theme_known no_leaf. Qed.

Lemma load_theme_consistent page : theme_consistent (load page).
Proof.
  rewrite load_exec.
  apply (theme_consistent_ext
    (exec (applyTheme (or_else (localStorage page !! theme_preference)
             (if systemPrefersDark page then dark else light))) page)); [done|].
  apply applyTheme_theme_consistent.
Qed.

(** X7. After the page has loaded and after every event, a theme is applied
    and the label of the toggle and the theme colour of the page are the
    ones that go with it: the toggle offers the other mode. *)
Theorem theme_consistent_always (page σ : State) :
  rtc step (load page) σ → theme_consistent σ.
Proof.
  revert page σ. apply rtc_step_invariant.
  - intros ev σ. rewrite dispatch_exec. apply handle_theme_consistent.
  - apply load_theme_consistent.
Qed.

Lemma theme_consistent_always_witness :
  theme_consistent (dispatch ev_click_theme (load (example_page ∅ None None))).
Proof.
  apply (theme_consistent_always (example_page ∅ None None)).
  apply rtc_once, step_dispatch.
Defined.

(** *** Notifications *)

Lemma notif_ok_ext σ σ' :
  messages (notif σ') = messages (notif σ) → next_id (notif σ') = next_id (notif σ) →
  notif_ok σ → notif_ok σ'.
Proof. unfold notif_ok. by intros -> ->. Qed.

Lemma showMessage_notif_ok message type :
  respects (preserved notif_ok) (showMessage message type).
Proof.
  intros σ [Hlen Hid]. split.
  - rewrite showMessage_messages, length_app, length_drop. simpl. lia.
  - intros m. rewrite showMessage_messages.
    change (next_id (notif (exec (showMessage message type) σ)))
      with (S (next_id (notif σ))).
    intros [Hm| ->%list_elem_of_singleton]%elem_of_app; simpl; [|lia].
    apply (subseteq_drop 1), Hid in Hm. lia.
Qed.

Lemma set_opacity_msg_id id o m : msg_id (set_opacity id o m) = msg_id m.
Proof. unfold set_opacity. by destruct (decide _). Qed.

Lemma set_opacity_notif_ok id o :
  respects (preserved notif_ok) (modify (set_messages (fmap (set_opacity id o)))).
Proof.
  intros σ [Hlen Hid]. split.
  - change (length (set_opacity id o <$> messages (notif σ)) ≤ 1)%nat.
    by rewrite length_fmap.
  - intros m Hm.
    change (m ∈ set_opacity id o <$> messages (notif σ)) in Hm.
    apply list_elem_of_fmap in Hm as (m' & -> & Hm').
    rewrite set_opacity_msg_id. by apply Hid.
Qed.

Lemma remove_notif_ok id :
  respects (preserved notif_ok)
    (modify (set_messages (filter (λ m, msg_id m ≠ id)))).
Proof.
  intros σ [Hlen Hid]. split.
  - change (length (filter (λ m, msg_id m ≠ id) (messages (notif σ))) ≤ 1)%nat.
    etransitivity; [apply length_filter|done].
  - intros m Hm.
    change (m ∈ filter (λ m, msg_id m ≠ id) (messages (notif σ))) in Hm.
    apply list_elem_of_filter in Hm as [_ Hm]. by apply Hid.
Qed.

Ltac notif_known :=
  idtac; lazymatch goal with
  | |- respects _ (showMessage _ _) => apply showMessage_notif_ok
  | |- respects _ (modify (set_messages (fmap _))) => apply set_opacity_notif_ok
  | |- respects _ (modify (set_messages (filter _))) => apply remove_notif_ok
  | |- _ =>
      apply (respects_same_preserved
               (λ σ, (messages (notif σ), next_id (notif σ))));
      [intros ? ? [= ? ?]; by apply notif_ok_ext|];
      respects_auto same_leaf; fail
  end.

Lemma handle_notif_ok ev : respects (preserved notif_ok) (handle ev).
Proof. destruct ev; unfold handle, click, run_task; respects_by notif_known no_leaf. Qed.

(** X8. However many notifications are requested, the page holds at most
    one at a time, and its identity is never reused: the invariant holds
    after every run of events from a state that has it, and a page load
    keeps it. *)
Theorem notifications_at_most_one (evs : list Event) (σ : State) :
  notif_ok σ →
  notif_ok (run_events evs σ)
  ∧ (length (messages (notif (run_events evs σ))) ≤ 1)%nat
  ∧ notif_ok (load σ).
Proof.
  intros Hσ.
  assert (notif_ok (run_events evs σ)) as H.
  { revert evs σ Hσ. apply run_events_invariant.
    intros ev σ. rewrite dispatch_exec. apply handle_notif_ok. }
  split; [done|]. split; [apply H|].
  rewrite load_exec. by apply (notif_ok_ext σ).
Qed.

Lemma notifications_at_most_one_witness :
  (length (messages (notif (run_events [ev_click_theme; ev_click_theme]
                               (example_page ∅ None None)))) ≤ 1)%nat.
Proof.
  assert (notif_ok (example_page ∅ None None)) as H.
  { split; [unfold example_page; simpl; lia|].
    intros m Hm. by apply elem_of_nil in Hm. }
  exact (proj1 (proj2 (notifications_at_most_one
           [ev_click_theme; ev_click_theme] (example_page ∅ None None) H))).
Defined.

Lemma own_colour type color d :
  property colors type = Some color →
  style_backgroundColor (value_or (get colors type) d) = color.
Proof.
  intros H. unfold get. rewrite H. unfold colors, property in H.
  repeat (destruct (decide _) in H; [by injection H as <-|]). done.
Qed.

(** X9. The life of a notification of one of the types that [colors]
    lists: [showMessage] replaces the one shown, if any, by a new
    transparent one in the colour of its type and schedules its entry and
    its leave; the entry makes it opaque; the removal timer of another
    notification leaves it in place; its leave makes it transparent and
    schedules its removal 300 ms later, which takes it out of the page. *)
Theorem notification_lifecycle (message type color : jsstring) (σ : State) :
  (length (messages (notif σ)) ≤ 1)%nat →
  property colors type = Some color →
  let id := next_id (notif σ) in
  let shown o :=
    {| msg_id := id; className := lit "message message--" ++ type;
       textContent := message;
       backgroundColor := color;
       opacity := o |} in
  let σ1 := exec (showMessage message type) σ in
  let σ2 := exec (run_task (task_leave id)) σ1 in
  messages (notif σ1) = [shown 0]
  ∧ frames (notif σ1) = frames (notif σ) ++ [task_enter id]
  ∧ timers (notif σ1) = timers (notif σ) ++ [(3000, task_leave id)]
  ∧ messages (notif (exec (run_task (task_enter id)) σ1)) = [shown 1]
  ∧ (∀ id', id' ≠ id →
       messages (notif (exec (run_task (task_remove id')) σ1)) = [shown 0])
  ∧ messages (notif σ2) = [shown 0]
  ∧ timers (notif σ2) = timers (notif σ1) ++ [(300, task_remove id)]
  ∧ messages (notif (exec (run_task (task_remove id)) σ2)) = [].
Proof.
  intros Hlen Hcolor id shown σ1 σ2.
  assert (messages (notif σ1) = [shown 0]) as H1.
  { unfold σ1. rewrite showMessage_messages, (own_colour _ _ _ Hcolor).
    destruct (messages (notif σ)) as [|m [|m' ms]]; simpl in *; [done..|lia]. }
  assert (∀ o, set_opacity id o (shown 0) = shown o) as Hop.
  { intros o. unfold set_opacity. simpl. by rewrite decide_True. }
  assert (messages (notif σ2) = [shown 0]) as H2.
  { change (set_opacity id 0 <$> messages (notif σ1) = [shown 0]).
    rewrite H1. simpl. by rewrite Hop. }
  split; [done|]. split; [done|]. split; [done|]. split.
  { change (set_opacity id 1 <$> messages (notif σ1) = [shown 1]).
    rewrite H1. simpl. by rewrite Hop. }
  split.
  { intros id' Hid.
    change (filter (λ m, msg_id m ≠ id') (messages (notif σ1)) = [shown 0]).
    rewrite H1. rewrite filter_cons_True by (simpl; congruence). done. }
  split; [done|]. split; [done|].
  change (filter (λ m, msg_id m ≠ id) (messages (notif σ2)) = []).
  rewrite H2. rewrite filter_cons_False by (simpl; tauto). done.
Qed.

Lemma notification_lifecycle_witness :
  messages (notif (exec (run_task (task_remove 0))
     (exec (run_task (task_leave 0))
        (exec (showMessage (lit "hola") (lit "info")) (example_page ∅ None None))))) = [].
Proof.
  assert (length (messages (notif (example_page ∅ None None))) ≤ 1)%nat as H
    by (unfold example_page; simpl; lia).
  assert (property colors (lit "info") = Some (lit "#2563eb")) as Hc
    by (vm_compute; reflexivity).
  pose proof (notification_lifecycle (lit "hola") (lit "info") (lit "#2563eb")
                (example_page ∅ None None) H Hc) as W.
  cbv zeta in W. exact (proj2 (proj2 (proj2 (proj2 (proj2 (proj2 (proj2 W))))))).
Defined.

(** *** Calls of the engine *)

Lemma trimmed_text_trim s : String_trim s ≠ [] → trimmed_text (String_trim s).
Proof. intros H. split; [done|apply String_trim_idem]. Qed.

Lemma engine_ok_grow σ σ' :
  engine_ok σ →
  (∀ d t, (d, t) ∈ timers (notif σ') →
     (d, t) ∈ timers (notif σ) ∨ ∀ text, task_text t = Some text → trimmed_text text) →
  (∀ t, t ∈ frames (notif σ') →
     t ∈ frames (notif σ) ∨ ∀ text, task_text t = Some text → trimmed_text text) →
  (∃ added, engine_calls (runtime σ') = engine_calls (runtime σ) ++ added
            ∧ Forall trimmed_text added) →
  engine_ok σ'.
Proof.
  intros (Hts & Hfs & Hcs) Ht Hf (added & Hc & Hadded). split; [|split].
  - intros d t text Hin Htext. destruct (Ht d t Hin) as [Hold|Hnew]; eauto.
  - intros t text Hin Htext. destruct (Hf t Hin) as [Hold|Hnew]; eauto.
  - rewrite Hc. by apply Forall_app.
Qed.

Lemma engine_ok_ext σ σ' :
  timers (notif σ') = timers (notif σ) → frames (notif σ') = frames (notif σ) →
  engine_calls (runtime σ') = engine_calls (runtime σ) →
  engine_ok σ → engine_ok σ'.
Proof. unfold engine_ok. by intros -> -> ->. Qed.

Lemma showMessage_engine_ok message type :
  respects (preserved engine_ok) (showMessage message type).
Proof.
  intros σ Hσ. apply (engine_ok_grow σ); [done|..].
  - intros d t. change (timers (notif (exec (showMessage message type) σ)))
      with (timers (notif σ) ++ [(3000, task_leave (next_id (notif σ)))]).
    intros [?|Hin]%elem_of_app; [by left|].
    apply list_elem_of_singleton in Hin. injection Hin as -> ->. by right.
  - intros t. change (frames (notif (exec (showMessage message type) σ)))
      with (frames (notif σ) ++ [task_enter (next_id (notif σ))]).
    intros [?| ->%list_elem_of_singleton]%elem_of_app; [by left|by right].
  - exists []. by rewrite app_nil_r.
Qed.

Lemma invertText_engine_ok : respects (preserved engine_ok) invertText.
Proof.
  intros σ. unfold preserved, exec.
  destruct (decide (String_trim (inputText_value (form σ)) = [])) as [Hb|Hp].
  - rewrite (invertText_blank_eq σ Hb). intros Hσ.
    apply (engine_ok_ext
      (exec (showMessage (lit "Por favor, ingresa algún texto para invertir.")
               (lit "warning")) σ)); [done..|].
    by apply showMessage_engine_ok.
  - rewrite (invertText_proceeds_eq σ Hp). intros Hσ.
    apply (engine_ok_grow σ); [done|..].
    + intros d t Hin.
      change ((d, t) ∈ timers (notif σ) ++
                [(100, task_invert (String_trim (inputText_value (form σ))))]) in Hin.
      apply elem_of_app in Hin as [?|Hin]; [by left|].
      apply list_elem_of_singleton in Hin. injection Hin as -> ->. right.
      intros text [= <-]. by apply trimmed_text_trim.
    + intros t Ht. by left.
    + exists []. by rewrite app_nil_r.
Qed.

Lemma run_task_engine_ok t σ :
  (∀ text, task_text t = Some text → trimmed_text text) →
  engine_ok σ → engine_ok (exec (run_task t) σ).
Proof.
  intros Ht. destruct t as [text|id|id|id].
  - intros Hσ.
    apply (engine_ok_ext
      (exec (showMessage (lit "¡Texto invertido correctamente!") (lit "success"))
         (exec (call_reverseString text) σ))); [done..|].
    apply showMessage_engine_ok. apply (engine_ok_grow σ); [done|..].
    + intros d t Hin. by left.
    + intros t Hin. by left.
    + exists [text]. split; [done|]. constructor; [by apply Ht|constructor].
  - by apply engine_ok_ext.
  - intros Hσ. apply (engine_ok_grow σ); [done|..].
    + intros d t Hin.
      change ((d, t) ∈ timers (notif σ) ++ [(300, task_remove id)]) in Hin.
      apply elem_of_app in Hin as [?|Hin]; [by left|].
    apply list_elem_of_singleton in Hin. injection Hin as -> ->. by right.
    + intros t Hin. by left.
    + exists []. by rewrite app_nil_r.
  - by apply engine_ok_ext.
Qed.

Lemma handle_timeout_exec n σ :
  exec (handle (ev_timeout n)) σ =
    match timers (notif σ) !! n with
    | Some (_, callback) => exec (run_task callback) (set_timers (delete n) σ)
    | None => σ
    end.
Proof.
  unfold exec, handle, mbind at 1, M_bind at 1, gets at 1.
  by destruct (timers (notif σ) !! n) as [[d t]|].
Qed.

Lemma handle_animation_frame_exec n σ :
  exec (handle (ev_animation_frame n)) σ =
    match frames (notif σ) !! n with
    | Some callback => exec (run_task callback) (set_frames (delete n) σ)
    | None => σ
    end.
Proof.
  unfold exec, handle, mbind at 1, M_bind at 1, gets at 1.
  by destruct (frames (notif σ) !! n) as [t|].
Qed.

Ltac engine_known :=
  idtac; lazymatch goal with
  | |- respects _ (showMessage _ _) => apply showMessage_engine_ok
  | |- respects _ invertText => apply invertText_engine_ok
  | |- _ =>
      apply (respects_same_preserved
               (λ σ, (timers (notif σ), frames (notif σ), engine_calls (runtime σ))));
      [intros ? ? [= ? ? ?]; by apply engine_ok_ext|];
      respects_auto same_leaf; fail
  end.

Lemma handle_engine_ok ev : respects (preserved engine_ok) (handle ev).
Proof.
  destruct ev as [| | | |v|c m k|v|b|n|n|b].
  9: { intros σ Hσ. rewrite handle_timeout_exec.
       destruct (timers (notif σ) !! n) as [[d t]|] eqn:Hn; [|done].
       apply run_task_engine_ok.
       - intros text Ht. destruct Hσ as (Hts & _). apply (Hts d t); [|done].
         by apply list_elem_of_lookup_2 in Hn.
       - apply (engine_ok_grow σ); [done|..].
         + intros d' t' Hin. left. by apply list_elem_of_delete_inv in Hin.
         + intros t' Hin. by left.
         + exists []. by rewrite app_nil_r. }
  9: { intros σ Hσ. rewrite handle_animation_frame_exec.
       destruct (frames (notif σ) !! n) as [t|] eqn:Hn; [|done].
       apply run_task_engine_ok.
       - intros text Ht. destruct Hσ as (_ & Hfs & _). apply (Hfs t); [|done].
         by apply list_elem_of_lookup_2 in Hn.
       - apply (engine_ok_grow σ); [done|..].
         + intros d' t' Hin. by left.
         + intros t' Hin. left. by apply list_elem_of_delete_inv in Hin.
         + exists []. by rewrite app_nil_r. }
  all: unfold handle, click; respects_by engine_known no_leaf.
Qed.

(** X10. The engine is only ever asked to reverse a text that is not empty
    and has no blank at either end: this holds of every pending reversal
    and of every call made, after every run of events from a state where
    it holds; and only timer and animation-frame events call the engine. *)
Theorem engine_called_on_trimmed_text (evs : list Event) (σ : State) :
  engine_ok σ →
  engine_ok (run_events evs σ)
  ∧ Forall trimmed_text (engine_calls (runtime (run_events evs σ)))
  ∧ (∀ ev, (∀ n, ev ≠ ev_timeout n) → (∀ n, ev ≠ ev_animation_frame n) →
       engine_calls (runtime (dispatch ev σ)) = engine_calls (runtime σ)).
Proof.
  intros Hσ.
  assert (engine_ok (run_events evs σ)) as H.
  { revert evs σ Hσ. apply run_events_invariant.
    intros ev σ. rewrite dispatch_exec. apply handle_engine_ok. }
  split; [done|]. split; [apply H|].
  intros ev Ht Hf. rewrite dispatch_exec.
  assert (respects (same (λ σ, engine_calls (runtime σ))) (handle ev)) as Hs;
    [|apply Hs].
  destruct ev as [| | | |v|c m k|v|b|n|n|b];
    try (by destruct (Ht n)); try (by destruct (Hf n));
    respects_auto same_leaf.
Qed.

Lemma engine_called_on_trimmed_text_witness :
  Forall trimmed_text (engine_calls (runtime
    (run_events [ev_input (lit " hola "); ev_click_invert; ev_timeout 0]
       (example_page ∅ None None)))).
Proof.
  assert (engine_ok (example_page ∅ None None)) as H.
  { split; [|split]; [intros d t text Hin|intros t text Hin|constructor];
      by apply elem_of_nil in Hin. }
  exact (proj1 (proj2 (engine_called_on_trimmed_text
    [ev_input (lit " hola "); ev_click_invert; ev_timeout 0]
    (example_page ∅ None None) H))).
Defined.

(** *** What the program leaves alone *)

Ltac store_leaf :=
  first [ reflexivity
        | unfold same; simpl; by rewrite lookup_insert_ne ].

(** X11. The program reads and writes one key of the store: every other key
    keeps its value, or its absence, through every event and page load. *)
Theorem store_other_keys (k : jsstring) (σ σ' : State) :
  k ≠ theme_preference → rtc step σ σ' → localStorage σ' !! k = localStorage σ !! k.
Proof.
  intros Hk. induction 1 as [|σ0 σ1 σ2 Hstep _ IH]; [done|].
  rewrite IH. destruct Hstep as [σ0 ev|σ0 page Hpage].
  - rewrite dispatch_exec.
    assert (respects (same (λ σ, localStorage σ !! k)) (handle ev)) as H; [|apply H].
    destruct ev; respects_auto store_leaf.
  - by rewrite load_localStorage, Hpage.
Qed.

Lemma store_other_keys_witness :
  localStorage (dispatch ev_click_theme (example_page {[ lit "lang" := lit "es" ]} None None))
    !! lit "lang" = Some (lit "es").
Proof.
  assert (lit "lang" ≠ theme_preference) as Hk by (vm_compute; discriminate).
  rewrite (store_other_keys (lit "lang")
             (example_page {[ lit "lang" := lit "es" ]} None None)
             (dispatch ev_click_theme
                (example_page {[ lit "lang" := lit "es" ]} None None)) Hk
             (rtc_once _ _ (step_dispatch _ _))).
  apply lookup_singleton_eq.
Defined.

(** X12. The clipboard is written by copying only: any event other than a
    click on the copy button or the settling of a pending write, and any
    page load, leaves it as it is. *)
Theorem clipboard_only_by_copy (ev : Event) (σ : State) :
  ev ≠ ev_click_copy → (∀ fulfilled, ev ≠ ev_promise_settled fulfilled) →
  clipboard (dispatch ev σ) = clipboard σ ∧ clipboard (load σ) = clipboard σ.
Proof.
  intros Hcopy Hsettled. split.
  - rewrite dispatch_exec.
    assert (respects (same clipboard) (handle ev)) as H; [|apply H].
    destruct ev as [| | | |v|c m k|v|b|n|n|b];
      try done; try (by destruct (Hsettled b)); respects_auto same_leaf.
  - rewrite load_exec.
    assert (respects (same clipboard) init) as H; [|apply H].
    respects_auto same_leaf.
Qed.

Lemma clipboard_only_by_copy_witness :
  clipboard (dispatch ev_click_clear (example_page ∅ None None)) = [].
Proof.
  refine (proj1 (clipboard_only_by_copy ev_click_clear (example_page ∅ None None) _ _));
    discriminate.
Defined.

(** *** Themes, continued *)




(** X15. A change of the system preference is followed only while no
    preference is stored: with a non-empty stored value the theme stays
    as it is; with none, or an empty one, the theme becomes dark or light
    as the system now reports; and without [matchMedia] nothing listens. *)
Theorem system_preference_listener (matches : bool) (σ : State) :
  (∀ c v, localStorage σ !! theme_preference = Some (c :: v) →
     theme (dispatch (ev_media_change matches) σ) = theme σ)
  ∧ (localStorage σ !! theme_preference = None
     ∨ localStorage σ !! theme_preference = Some [] →
     matchMedia_dark (host σ) ≠ None →
     data_theme (theme (dispatch (ev_media_change matches) σ))
       = Some (if matches then dark else light))
  ∧ (matchMedia_dark (host σ) = None → dispatch (ev_media_change matches) σ = σ).
Proof.
  rewrite dispatch_exec. unfold exec. rewrite handle_media_change.
  split; [|split].
  - intros c v Hv. destruct (matchMedia_dark (host σ)); [|done].
    unfold systemPreferenceChanged, getItem, mbind, M_bind, gets. simpl.
    by rewrite Hv.
  - intros Hv Hmm. destruct (matchMedia_dark (host σ)); [|done].
    unfold systemPreferenceChanged, getItem, mbind, M_bind, gets. simpl.
    by destruct Hv as [-> | ->].
  - by intros ->.
Qed.

Lemma system_preference_listener_witness :
  theme (dispatch (ev_media_change true)
     (example_page {[ theme_preference := light ]} (Some light) (Some false)))
  = theme (example_page {[ theme_preference := light ]} (Some light) (Some false)).
Proof.
  refine (proj1 (system_preference_listener true
    (example_page {[ theme_preference := light ]} (Some light) (Some false)))
    108 (lit "ight") _).
  apply lookup_singleton_eq.
Defined.

(** *** Inverting *)

Lemma handle_click_invert_exec σ :
  exec (handle ev_click_invert) σ =
    if invertButton_disabled (buttons σ) then σ else exec invertText σ.
Proof.
  unfold exec, handle, click, mbind at 1, M_bind at 1, gets at 1.
  by destruct (invertButton_disabled (buttons σ)).
Qed.

Lemma invertText_keeps_messages :
  ∀ σ, String_trim (inputText_value (form σ)) ≠ [] →
       messages (notif (exec invertText σ)) = messages (notif σ).
Proof. intros σ Hp. unfold exec. by rewrite (invertText_proceeds_eq σ Hp). Qed.

(** X16. With the buttons up to date and the invert button not loading, a
    click on it never leads to the empty-input warning: on a blank input
    the button is disabled and the click changes nothing, otherwise
    [invertText] runs and proceeds; in both cases the notifications are
    untouched.  The Ctrl/Cmd+Enter shortcut runs [invertText] whatever
    the state of the button, and other keys do nothing. *)
Theorem invert_click_never_warns (σ : State) :
  buttons_ok σ → invertButton_loading (buttons σ) = false →
  (String_trim (inputText_value (form σ)) = [] → dispatch ev_click_invert σ = σ)
  ∧ (String_trim (inputText_value (form σ)) ≠ [] →
     dispatch ev_click_invert σ = exec invertText σ)
  ∧ messages (notif (dispatch ev_click_invert σ)) = messages (notif σ)
  ∧ (∀ ctrlKey metaKey key,
       dispatch (ev_keydown ctrlKey metaKey key) σ =
         if (ctrlKey || metaKey) && bool_decide (key = lit "Enter")
         then exec invertText σ else σ).
Proof.
  intros (_ & _ & Hinv) Hl. specialize (Hinv Hl).
  rewrite !dispatch_exec, handle_click_invert_exec, Hinv.
  split; [|split; [|split]].
  - intros Hb. by rewrite bool_decide_eq_true_2.
  - intros Hp. by rewrite bool_decide_eq_false_2.
  - case_bool_decide as Hb; [done|]. by apply invertText_keeps_messages.
  - intros c m key. rewrite dispatch_exec. unfold exec, handle.
    by destruct (_ && _).
Qed.

Lemma invert_click_never_warns_witness :
  dispatch ev_click_invert (load (example_page ∅ None None))
    = load (example_page ∅ None None).
Proof.
  refine (proj1 (invert_click_never_warns (load (example_page ∅ None None)) _ _) _).
  - apply load_buttons_ok.
  - reflexivity.
  - reflexivity.
Defined.

(** X17. Right after [invertText] has scheduled a reversal the invert
    button is disabled and marked as loading, so that a click on it does
    nothing.  This lasts only until the buttons are next brought up to
    date: an input event with a text that is not blank enables the button
    again while it is still marked as loading, and a click then schedules
    a second reversal.  The callback of a reversal ends the loading state
    and brings the buttons up to date. *)
Theorem invertText_loading (σ : State) :
  String_trim (inputText_value (form σ)) ≠ [] →
  let text := String_trim (inputText_value (form σ)) in
  let σ1 := exec invertText σ in
  invertButton_disabled (buttons σ1) = true
  ∧ invertButton_loading (buttons σ1) = true
  ∧ invertButton_ariaLabel (buttons σ1) = lit "Invirtiendo texto..."
  ∧ dispatch ev_click_invert σ1 = σ1
  ∧ (∀ v, String_trim v ≠ [] →
       invertButton_disabled (buttons (dispatch (ev_input v) σ1)) = false
       ∧ invertButton_loading (buttons (dispatch (ev_input v) σ1)) = true
       ∧ timers (notif (dispatch ev_click_invert (dispatch (ev_input v) σ1))) =
           timers (notif σ) ++
             [(100, task_invert text); (100, task_invert (String_trim v))])
  ∧ (∀ text' σ',
       invertButton_loading (buttons (exec (invertText_callback text') σ')) = false
       ∧ invertButton_ariaLabel (buttons (exec (invertText_callback text') σ'))
           = lit "Invertir texto"
       ∧ buttons_ok (exec (invertText_callback text') σ')).
Proof.
  intros Hp text σ1.
  assert (σ1 = exec (setLoadingState true;; setTimeout (task_invert text) 100) σ)
    as Hσ1.
  { unfold σ1, exec. by rewrite (invertText_proceeds_eq σ Hp). }
  clearbody σ1. subst σ1.
  split; [done|]. split; [done|]. split; [done|]. split.
  { by rewrite dispatch_exec, handle_click_invert_exec. }
  split.
  - intros v Hv. rewrite !dispatch_exec.
    set (σ2 := exec (handle (ev_input v)) _).
    assert (inputText_value (form σ2) = v) as Hin by reflexivity.
    assert (invertButton_disabled (buttons σ2) =
            negb (bool_decide (0 < length (String_trim v))%nat)) as Hd by reflexivity.
    assert (invertButton_loading (buttons σ2) = true) as Hl by reflexivity.
    assert (timers (notif σ2) = timers (notif σ) ++ [(100, task_invert text)])
      as Ht by reflexivity.
    clearbody σ2.
    rewrite bool_decide_nil_length, bool_decide_eq_false_2 in Hd by done.
    split; [done|]. split; [done|].
    rewrite handle_click_invert_exec, Hd.
    assert (String_trim (inputText_value (form σ2)) ≠ []) as Hp2 by by rewrite Hin.
    assert (exec invertText σ2 =
            exec (setLoadingState true;;
                  setTimeout (task_invert (String_trim (inputText_value (form σ2)))) 100)
              σ2) as ->.
    { unfold exec. by rewrite (invertText_proceeds_eq σ2 Hp2). }
    assert (∀ t s, timers (notif (exec (setLoadingState true;; setTimeout t 100) s))
                   = timers (notif s) ++ [(100, t)]) as -> by reflexivity.
    by rewrite Ht, Hin, <- app_assoc.
  - intros text' σ'. split; [done|]. split; [done|].
    apply (buttons_ok_ext
      (exec updateButtonStates
         (exec (call_reverseString text' ≫= λ invertedText,
                modify (set_resultText_value invertedText);;
                setLoadingState false) σ'))); [done..|].
    apply updateButtonStates_buttons_ok.
Qed.

Lemma invertText_loading_witness :
  invertButton_disabled (buttons (dispatch (ev_input (lit "otra"))
    (exec invertText (set_inputText_value (lit "hola") (example_page ∅ None None)))))
  = false.
Proof.
  assert (String_trim (inputText_value (form
            (set_inputText_value (lit "hola") (example_page ∅ None None)))) ≠ [])
    as Hne by (vm_compute; discriminate).
  pose proof (invertText_loading _ Hne) as W. cbv zeta in W.
  destruct W as (_ & _ & _ & _ & W & _).
  refine (proj1 (W (lit "otra") _)). vm_compute. discriminate.
Defined.

Lemma reverseString_trimmed text : trimmed_text text → trimmed_text (reverseString text).
Proof.
  intros [Hne Htrim].
  assert (String_trim text ≠ []) as Hne' by by rewrite Htrim.
  destruct (String_trim_ends text Hne') as (a & b & Ha & Hna & Hb & Hnb).
  rewrite Htrim in Ha, Hb. rewrite reverseString_reverse. split.
  - intros Hr. apply (f_equal length) in Hr. rewrite length_reverse in Hr.
    by destruct text.
  - apply (String_trim_fixed _ b a); try done.
    + by rewrite head_reverse.
    + by rewrite last_reverse.
Qed.

(** X18. When the timer of a pending reversal of a trimmed, non-empty
    text fires, in whatever state the page then is, the result field gets
    the reversal: a non-empty text as long as the scheduled one, without
    a blank at either end, whose own reversal is the scheduled text.  The
    input is untouched; the copy and clear buttons are enabled and the
    invert button is enabled exactly when the input is then not blank;
    the loading state is over, the result has the focus, the success
    notification is shown and the fired timer is replaced by the one that
    dismisses the notification. *)
Theorem inversion_completed (σ : State) (n : nat) (d : Z) (text : jsstring) :
  timers (notif σ) !! n = Some (d, task_invert text) → trimmed_text text →
  let σ' := dispatch (ev_timeout n) σ in
  resultText_value (form σ') = reverseString text
  ∧ trimmed_text (resultText_value (form σ'))
  ∧ length (resultText_value (form σ')) = length text
  ∧ reverseString (resultText_value (form σ')) = text
  ∧ inputText_value (form σ') = inputText_value (form σ)
  ∧ copyButton_disabled (buttons σ') = false
  ∧ clearButton_disabled (buttons σ') = false
  ∧ invertButton_disabled (buttons σ') =
      bool_decide (String_trim (inputText_value (form σ)) = [])
  ∧ invertButton_loading (buttons σ') = false
  ∧ activeElement (runtime σ') = Some resultText
  ∧ last (messages (notif σ')) =
      Some {| msg_id := next_id (notif σ);
              className := lit "message message--success";
              textContent := lit "¡Texto invertido correctamente!";
              backgroundColor := lit "#059669";
              opacity := 0 |}
  ∧ timers (notif σ') =
      delete n (timers (notif σ)) ++ [(3000, task_leave (next_id (notif σ)))].
Proof.
  intros Hn Ht σ'.
  assert (σ' = exec (invertText_callback text) (set_timers (delete n) σ)) as Hσ'.
  { unfold σ'. by rewrite dispatch_exec, handle_timeout_exec, Hn. }
  clearbody σ'. subst σ'.
  assert (reverseString text ≠ []) as Hne by by apply reverseString_trimmed.
  match goal with
  | |- context [exec ?m ?s] => set (σ' := exec m s)
  end.
  assert (resultText_value (form σ') = reverseString text) as -> by reflexivity.
  assert (inputText_value (form σ') = inputText_value (form σ)) as -> by reflexivity.
  assert (copyButton_disabled (buttons σ') =
          negb (bool_decide (0 < length (reverseString text))%nat)) as ->
    by reflexivity.
  assert (clearButton_disabled (buttons σ') =
          negb (bool_decide (0 < length (String_trim (inputText_value (form σ))))%nat)
          && negb (bool_decide (0 < length (reverseString text))%nat)) as ->
    by reflexivity.
  assert (invertButton_disabled (buttons σ') =
          negb (bool_decide (0 < length (String_trim (inputText_value (form σ))))%nat))
    as -> by reflexivity.
  assert (invertButton_loading (buttons σ') = false) as -> by reflexivity.
  assert (activeElement (runtime σ') = Some resultText) as -> by reflexivity.
  assert (messages (notif σ') =
          drop 1 (messages (notif σ)) ++
            [ {| msg_id := next_id (notif σ);
                 className := lit "message message--success";
                 textContent := lit "¡Texto invertido correctamente!";
                 backgroundColor := lit "#059669";
                 opacity := 0 |} ]) as -> by reflexivity.
  assert (timers (notif σ') =
          delete n (timers (notif σ)) ++ [(3000, task_leave (next_id (notif σ)))])
    as -> by reflexivity.
  clearbody σ'.
  rewrite !bool_decide_nil_length.
  rewrite (bool_decide_eq_false_2 (reverseString text = [])) by done.
  rewrite andb_false_r, last_snoc.
  split; [done|]. split; [by apply reverseString_trimmed|].
  split; [apply reverseString_length|].
  split; [rewrite !reverseString_reverse; apply reverse_involutive|].
  by repeat split.
Qed.

Lemma inversion_completed_witness :
  copyButton_disabled (buttons (dispatch (ev_timeout 0)
    (exec invertText (set_inputText_value (lit " hola ") (example_page ∅ None None)))))
  = false.
Proof.
  assert (trimmed_text (lit "hola")) as Ht
    by (split; [vm_compute; discriminate|vm_compute; reflexivity]).
  pose proof (inversion_completed
    (exec invertText (set_inputText_value (lit " hola ") (example_page ∅ None None)))
    0 100 (lit "hola") eq_refl Ht) as W.
  cbv zeta in W. exact (proj1 (proj2 (proj2 (proj2 (proj2 (proj2 W)))))).
Defined.

(** *** Clearing *)

(** X19. [clearFields] empties both fields and sets the counter to zero,
    disables the three buttons, gives the focus to the input and shows a
    success notification; clicks on the buttons then change nothing. *)
Theorem clearFields_resets (σ : State) :
  form (exec clearFields σ) =
    {| inputText_value := []; resultText_value := []; currentCount_textContent := 0 |}
  ∧ invertButton_disabled (buttons (exec clearFields σ)) = true
  ∧ copyButton_disabled (buttons (exec clearFields σ)) = true
  ∧ clearButton_disabled (buttons (exec clearFields σ)) = true
  ∧ activeElement (runtime (exec clearFields σ)) = Some inputText
  ∧ last (messages (notif (exec clearFields σ))) =
      Some {| msg_id := next_id (notif σ);
              className := lit "message message--success";
              textContent := lit "Campos limpiados correctamente.";
              backgroundColor := lit "#059669";
              opacity := 0 |}
  ∧ dispatch ev_click_invert (exec clearFields σ) = exec clearFields σ
  ∧ dispatch ev_click_copy (exec clearFields σ) = exec clearFields σ
  ∧ dispatch ev_click_clear (exec clearFields σ) = exec clearFields σ.
Proof.
  set (σ' := exec clearFields σ).
  assert (form σ' = {| inputText_value := []; resultText_value := [];
                       currentCount_textContent := 0 |}) as Hf by reflexivity.
  assert (invertButton_disabled (buttons σ') = true) as Hi by reflexivity.
  assert (copyButton_disabled (buttons σ') = true) as Hc by reflexivity.
  assert (clearButton_disabled (buttons σ') = true) as Hl by reflexivity.
  assert (activeElement (runtime σ') = Some inputText) as Ha by reflexivity.
  assert (messages (notif σ') =
          drop 1 (messages (notif σ)) ++
            [ {| msg_id := next_id (notif σ);
                 className := lit "message message--success";
                 textContent := lit "Campos limpiados correctamente.";
                 backgroundColor := lit "#059669";
                 opacity := 0 |} ]) as Hm by reflexivity.
  clearbody σ'. rewrite Hm, last_snoc, !dispatch_exec.
  repeat split; try done.
  - by rewrite handle_click_invert_exec, Hi.
  - unfold exec, handle, click, mbind at 1, M_bind at 1, gets at 1. by rewrite Hc.
  - unfold exec, handle, click, mbind at 1, M_bind at 1, gets at 1. by rewrite Hl.
Qed.

(** *** Copying *)

(** X20. With an empty result [copyResult] only shows a warning: nothing is
    written to the clipboard, nothing is pending and nothing is logged;
    and when the buttons are up to date the copy button is disabled, so
    that a click on it changes nothing at all. *)
Theorem copyResult_empty (σ : State) :
  resultText_value (form σ) = [] →
  last (messages (notif (exec copyResult σ))) =
      Some {| msg_id := next_id (notif σ);
              className := lit "message message--warning";
              textContent := lit "No hay texto que copiar.";
              backgroundColor := lit "#d97706";
              opacity := 0 |}
  ∧ clipboard (exec copyResult σ) = clipboard σ
  ∧ promises (runtime (exec copyResult σ)) = promises (runtime σ)
  ∧ console (runtime (exec copyResult σ)) = console (runtime σ)
  ∧ (buttons_ok σ → dispatch ev_click_copy σ = σ).
Proof.
  intros Hr.
  assert (exec copyResult σ =
          exec (showMessage (lit "No hay texto que copiar.") (lit "warning")) σ) as ->.
  { unfold exec, copyResult, mbind at 1, M_bind at 1, gets at 1. by rewrite Hr. }
  split; [by rewrite showMessage_messages, last_snoc|]. repeat split.
  intros (Hc & _). rewrite dispatch_exec.
  unfold exec, handle, click, mbind at 1, M_bind at 1, gets at 1.
  by rewrite Hc, Hr.
Qed.

Lemma copyResult_empty_witness :
  clipboard (exec copyResult (example_page ∅ None None)) = [].
Proof.
  refine (proj1 (proj2 (copyResult_empty (example_page ∅ None None) _))).
  reflexivity.
Defined.

Lemma copyResult_fallback_eq σ :
  resultText_value (form σ) ≠ [] → clipboard_api (host σ) = false →
  copyResult σ =
    try_catch (fallbackCopyToClipboard (resultText_value (form σ));;
               copyResult_succeeded) copyResult_failed σ.
Proof.
  intros Hr Hapi. unfold copyResult, mbind at 1, M_bind at 1, gets at 1.
  destruct (resultText_value (form σ)) as [|c text]; [done|].
  unfold falsy, mbind at 1, M_bind at 1, gets at 1. by rewrite Hapi.
Qed.

Lemma copyResult_fallback_run σ :
  resultText_value (form σ) ≠ [] → clipboard_api (host σ) = false →
  copyResult σ =
    if execCommand_throws (host σ)
    then copyResult_failed (lit "execCommand")
           (set_activeElement None (set_activeElement (Some textArea) σ))
    else copyResult_succeeded
           (set_activeElement None
              ((if execCommand_returns (host σ)
                then with_clipboard (λ _, resultText_value (form σ))
                else id) (set_activeElement (Some textArea) σ))).
Proof.
  intros Hr Hapi. rewrite (copyResult_fallback_eq σ Hr Hapi).
  cbv beta iota delta [try_catch fallbackCopyToClipboard try_finally execCommand_copy
                       mbind M_bind mret M_ret focus modify gets throw].
  change (execCommand_throws (host (set_activeElement (Some textArea) σ)))
    with (execCommand_throws (host σ)).
  destruct (execCommand_throws (host σ)); [done|]. cbv beta iota.
  change (execCommand_returns (host (set_activeElement (Some textArea) σ)))
    with (execCommand_returns (host σ)).
  by destruct (execCommand_returns (host σ)).
Qed.

(** X21. Without the clipboard API a non-empty result is copied through a
    temporary textarea, which is removed whether or not the copy command
    throws, so nothing is left focused; [copyResult] returns normally in
    every case.  If the command does not throw, the success notification
    is shown whatever it returned, since its result is not looked at: the
    clipboard holds the result when it returned true and is unchanged
    when it returned false.  If it throws, the clipboard is unchanged,
    the error is logged and an error notification is shown. *)
Theorem copyResult_fallback (σ : State) :
  resultText_value (form σ) ≠ [] → clipboard_api (host σ) = false →
  (copyResult σ).1 = Normal ()
  ∧ activeElement (runtime (exec copyResult σ)) = None
  ∧ promises (runtime (exec copyResult σ)) = promises (runtime σ)
  ∧ (execCommand_throws (host σ) = false →
     (execCommand_returns (host σ) = true →
      clipboard (exec copyResult σ) = resultText_value (form σ))
     ∧ (execCommand_returns (host σ) = false →
        clipboard (exec copyResult σ) = clipboard σ)
     ∧ console (runtime (exec copyResult σ)) = console (runtime σ)
     ∧ last (messages (notif (exec copyResult σ))) =
         Some {| msg_id := next_id (notif σ);
                 className := lit "message message--success";
                 textContent := lit "¡Texto copiado al portapapeles!";
                 backgroundColor := lit "#059669";
                 opacity := 0 |})
  ∧ (execCommand_throws (host σ) = true →
     clipboard (exec copyResult σ) = clipboard σ
     ∧ (∃ error, console (runtime (exec copyResult σ)) =
          console (runtime σ) ++ [(lit "Error al copiar al portapapeles:", error)])
     ∧ last (messages (notif (exec copyResult σ))) =
         Some {| msg_id := next_id (notif σ);
                 className := lit "message message--error";
                 textContent := lit "Error al copiar el texto.";
                 backgroundColor := lit "#dc2626";
                 opacity := 0 |}).
Proof.
  intros Hr Hapi. unfold exec. rewrite (copyResult_fallback_run σ Hr Hapi).
  destruct (execCommand_throws (host σ)).
  - split; [done|]. split; [done|]. split; [done|]. split; [done|]. intros _.
    split; [done|]. split; [by eexists|].
    etransitivity; [apply (f_equal last), showMessage_messages|]. by rewrite last_snoc.
  - destruct (execCommand_returns (host σ)).
    + split; [done|]. split; [done|]. split; [done|]. split; [|done]. intros _.
      split; [done|]. split; [done|]. split; [done|].
      etransitivity; [apply (f_equal last), showMessage_messages|].
      by rewrite last_snoc.
    + split; [done|]. split; [done|]. split; [done|]. split; [|done]. intros _.
      split; [done|]. split; [done|]. split; [done|].
      etransitivity; [apply (f_equal last), showMessage_messages|].
      by rewrite last_snoc.
Qed.

Lemma copyResult_fallback_witness :
  clipboard (exec copyResult
    (with_host (λ h, {| matchMedia_dark := None; clipboard_api := false;
                        execCommand_throws := false; execCommand_returns := false |})
       (with_clipboard (λ _, lit "antes")
          (set_resultText_value (lit "aloh") (example_page ∅ None None)))))
  = lit "antes".
Proof.
  refine (proj1 (proj2 (proj1 (proj2 (proj2 (proj2 (copyResult_fallback
    (with_host (λ h, {| matchMedia_dark := None; clipboard_api := false;
                        execCommand_throws := false; execCommand_returns := false |})
       (with_clipboard (λ _, lit "antes")
          (set_resultText_value (lit "aloh") (example_page ∅ None None)))) _ _)))) _)) _).
  - vm_compute. discriminate.
  - reflexivity.
  - reflexivity.
  - reflexivity.
Defined.

Lemma handle_promise_settled_exec fulfilled σ :
  exec (handle (ev_promise_settled fulfilled)) σ =
    match promises (runtime σ) with
    | text :: _ => exec (copyResult_settled text fulfilled) (set_promises (drop 1) σ)
    | [] => σ
    end.
Proof.
  unfold exec, handle, mbind at 1, M_bind at 1, gets at 1.
  by destruct (promises (runtime σ)).
Qed.

Lemma copyResult_api_run σ :
  resultText_value (form σ) ≠ [] → clipboard_api (host σ) = true →
  exec copyResult σ = set_promises (λ ps, ps ++ [resultText_value (form σ)]) σ.
Proof.
  intros Hr Hapi. unfold exec, copyResult, mbind at 1, M_bind at 1, gets at 1.
  destruct (resultText_value (form σ)) as [|c text]; [done|].
  unfold falsy, mbind at 1, M_bind at 1, gets at 1. by rewrite Hapi.
Qed.

Lemma copyResult_settled_fulfilled text σ :
  exec (copyResult_settled text true) σ =
    exec copyResult_succeeded (with_clipboard (λ _, text) σ).
Proof. reflexivity. Qed.

Lemma copyResult_settled_rejected text σ :
  exec (copyResult_settled text false) σ =
    exec (showMessage (lit "Error al copiar el texto.") (lit "error"))
      (set_console (λ c, c ++ [(lit "Error al copiar al portapapeles:",
                                lit "NotAllowedError")]) σ).
Proof. reflexivity. Qed.

(** X22. With the clipboard API [copyResult] only starts the write: nothing is
    shown or written until the promise settles.  What is then written is
    the result as it was when copying began, even if the result field was
    edited in between; if the write is refused the clipboard is unchanged,
    the error is logged and an error notification is shown. *)
Theorem copyResult_clipboard_api (σ : State) (v : jsstring) :
  resultText_value (form σ) ≠ [] → clipboard_api (host σ) = true →
  promises (runtime σ) = [] →
  let text := resultText_value (form σ) in
  let σ1 := exec copyResult σ in
  let σ2 := dispatch (ev_result_input v) σ1 in
  promises (runtime σ1) = [text]
  ∧ clipboard σ1 = clipboard σ
  ∧ messages (notif σ1) = messages (notif σ)
  ∧ clipboard (dispatch (ev_promise_settled true) σ2) = text
  ∧ promises (runtime (dispatch (ev_promise_settled true) σ2)) = []
  ∧ last (messages (notif (dispatch (ev_promise_settled true) σ2))) =
      Some {| msg_id := next_id (notif σ);
              className := lit "message message--success";
              textContent := lit "¡Texto copiado al portapapeles!";
              backgroundColor := lit "#059669";
              opacity := 0 |}
  ∧ clipboard (dispatch (ev_promise_settled false) σ2) = clipboard σ
  ∧ (∃ error, console (runtime (dispatch (ev_promise_settled false) σ2)) =
       console (runtime σ) ++ [(lit "Error al copiar al portapapeles:", error)])
  ∧ last (messages (notif (dispatch (ev_promise_settled false) σ2))) =
      Some {| msg_id := next_id (notif σ);
              className := lit "message message--error";
              textContent := lit "Error al copiar el texto.";
              backgroundColor := lit "#dc2626";
              opacity := 0 |}.
Proof.
  intros Hr Hapi Hps text σ1 σ2.
  assert (σ1 = set_promises (λ ps, ps ++ [text]) σ) as Hσ1
    by by apply copyResult_api_run.
  clearbody σ1. subst σ1.
  assert (σ2 = exec (modify (set_resultText_value v);; updateButtonStates)
                 (set_promises (λ ps, ps ++ [text]) σ)) as Hσ2
    by (unfold σ2; by rewrite dispatch_exec).
  clearbody σ2.
  assert (promises (runtime σ2) = [text]) as Hp2.
  { rewrite Hσ2. change (promises (runtime σ) ++ [text] = [text]). by rewrite Hps. }
  assert (clipboard σ2 = clipboard σ) as Hc2 by by rewrite Hσ2.
  assert (console (runtime σ2) = console (runtime σ)) as Hl2 by by rewrite Hσ2.
  assert (messages (notif σ2) = messages (notif σ)) as Hm2 by by rewrite Hσ2.
  assert (next_id (notif σ2) = next_id (notif σ)) as Hn2 by by rewrite Hσ2.
  clear Hσ2.
  rewrite !dispatch_exec, !handle_promise_settled_exec, Hp2.
  rewrite !copyResult_settled_fulfilled, !copyResult_settled_rejected.
  unfold copyResult_succeeded.
  split; [change (promises (runtime σ) ++ [text] = [text]); by rewrite Hps|].
  split; [reflexivity|]. split; [reflexivity|]. split; [reflexivity|].
  split; [change (drop 1 (promises (runtime σ2)) = []); by rewrite Hp2|].
  split.
  { rewrite showMessage_messages, last_snoc.
    change (next_id (notif (with_clipboard _ (set_promises (drop 1) σ2))))
      with (next_id (notif σ2)).
    rewrite Hn2. reflexivity. }
  split; [exact Hc2|].
  split.
  { exists (lit "NotAllowedError"). rewrite <- Hl2. reflexivity. }
  rewrite showMessage_messages, last_snoc.
  change (next_id (notif (set_console _ (set_promises (drop 1) σ2))))
    with (next_id (notif σ2)).
  rewrite Hn2. reflexivity.
Qed.

Lemma copyResult_clipboard_api_witness :
  clipboard (dispatch (ev_promise_settled true)
    (dispatch (ev_result_input (lit "otro"))
       (exec copyResult (set_resultText_value (lit "aloh") (example_page ∅ None None)))))
  = lit "aloh".
Proof.
  assert (resultText_value (form
            (set_resultText_value (lit "aloh") (example_page ∅ None None))) ≠ [])
    as Hr by (vm_compute; discriminate).
  pose proof (copyResult_clipboard_api
    (set_resultText_value (lit "aloh") (example_page ∅ None None)) (lit "otro")
    Hr eq_refl eq_refl) as W.
  cbv zeta in W. exact (proj1 (proj2 (proj2 (proj2 W)))).
Defined.
